(** * node-opcua: address space browse paths and the client publish engine

    A shallow embedding of
      - the address space module, [src/unnamed/part_000] (registration,
        reference-type lookup and normalisation, browse-path
        translation),
      - [lib/address_space/reference.js] ([isNodeIdString], [Reference]),
      - [lib/client/client_publish_engine.js] (the publish pipeline),
    followed by the properties established about them.

    The plain objects that the address space uses as dictionaries keyed
    by a name are [Dictionary] values: the own properties, and the
    prototype through which every other name is read. The index of node
    ids, keyed by the string of a NodeId, and the callbacks of the
    engine, keyed by a number, are finite maps. A call that may raise
    is a [Completion]; the publish engine, which mutates its fields and
    talks to the event loop and to the session, is written in a small
    state and exception monad over a [Runtime]. *)

From Stdlib Require Import ZArith String Ascii List Bool Lia.
From stdpp Require Import base option list gmap strings pretty.

Local Open Scope string_scope.
Local Open Scope Z_scope.

(** ** JavaScript completions *)

Inductive Exception :=
| AssertionError
| TypeError
| Error (message : string).

Inductive Completion (A : Type) :=
| Return (a : A)
| Throw (e : Exception).
Arguments Return {A} a.
Arguments Throw {A} e.

#[global] Instance Completion_ret : MRet Completion := fun _ a => Return a.
#[global] Instance Completion_bind : MBind Completion := fun _ _ f c =>
  match c with
  | Return a => f a
  | Throw e => Throw e
  end.

(** [assert(cond)] of better-assert. *)
Definition assert (cond : bool) : Completion unit :=
  if cond then Return tt else Throw AssertionError.

(** The result of [parseInt]: an integer or [NaN]. *)
Inductive JSNumber :=
| NaN
| Int (z : Z).

(** ** Strings *)

(** [str.substring(0, n)] *)
Fixpoint substring0 (n : nat) (str : string) : string :=
  match n, str with
  | S n', String c rest => String c (substring0 n' rest)
  | _, _ => EmptyString
  end.

(** [str.split(sep)] for a one-character separator: the pieces between
    the separators, empty pieces included, so never the empty list. *)
Fixpoint split (sep : ascii) (str : string) : list string :=
  match str with
  | EmptyString => [EmptyString]
  | String c rest =>
      if Ascii.eqb c sep then EmptyString :: split sep rest
      else match split sep rest with
           | [] => [String c EmptyString]
           | piece :: pieces => String c piece :: pieces
           end
  end.

Definition is_white_space (c : ascii) : bool :=
  let n := nat_of_ascii c in
  ((9 <=? n) && (n <=? 13))%nat || (n =? 32)%nat.

Fixpoint trim_start (str : string) : string :=
  match str with
  | String c rest => if is_white_space c then trim_start rest else str
  | EmptyString => EmptyString
  end.

Definition digit_value (c : ascii) : option Z :=
  let n := Z.of_nat (nat_of_ascii c) in
  if (48 <=? n) && (n <=? 57) then Some (n - 48)
  else if (97 <=? n) && (n <=? 122) then Some (n - 87)
  else if (65 <=? n) && (n <=? 90) then Some (n - 55)
  else None.

(** The longest prefix of digits of the radix, as a number; [acc] is
    [None] until a digit has been read. *)
Fixpoint parse_digits (radix : Z) (str : string) (acc : option Z) : option Z :=
  match str with
  | EmptyString => acc
  | String c rest =>
      match digit_value c with
      | Some d =>
          if d <? radix
          then parse_digits radix rest (Some (default 0 acc * radix + d))
          else acc
      | None => acc
      end
  end.

Definition parse_unsigned (str : string) : option Z :=
  match str with
  | String "0" (String "x" rest) | String "0" (String "X" rest) =>
      parse_digits 16 rest None
  | _ => parse_digits 10 str None
  end.

(** [parseInt(str)] without a radix: leading white space, a sign, a [0x]
    prefix, then the longest run of digits; [NaN] when there is none.
    The value is exact (JavaScript rounds beyond 2^53). *)
Definition parseInt (str : string) : JSNumber :=
  match trim_start str with
  | String "-" rest =>
      match parse_unsigned rest with Some z => Int (- z) | None => NaN end
  | String "+" rest =>
      match parse_unsigned rest with Some z => Int z | None => NaN end
  | rest =>
      match parse_unsigned rest with Some z => Int z | None => NaN end
  end.

(** ** Plain objects as dictionaries

    A dictionary of the address space is created as [{}], read with
    [dictionary[key]] and written with [dictionary[key] = value]. A read
    finds an own property or goes to the prototype, which is
    [Object.prototype] until an assignment to [__proto__] replaces it by
    the object assigned. *)

(** The members that [Object.prototype] has in every program. *)
Definition Object_prototype_members : list string :=
  [ "constructor"; "hasOwnProperty"; "isPrototypeOf"; "propertyIsEnumerable";
    "toLocaleString"; "toString"; "valueOf";
    "__defineGetter__"; "__defineSetter__"; "__lookupGetter__"; "__lookupSetter__";
    "__proto__" ].

(** Whether [key] is a member of [Object.prototype] in a program whose
    libraries have added the members [realm] to it (the library should
    adds [should]). *)
Definition inherited_member (realm : list string) (key : string) : bool :=
  bool_decide (key ∈ (Object_prototype_members ++ realm)%list).

Inductive Prototype (V : Type) :=
| Object_prototype
| Replaced (holder : V).
Arguments Object_prototype {V}.
Arguments Replaced {V} holder.

Record Dictionary (V : Type) := mkDictionary {
  own_properties : gmap string V;
  prototype_of : Prototype V
}.
Arguments mkDictionary {V} _ _.
Arguments own_properties {V} _.
Arguments prototype_of {V} _.

(** What a read yields: a value stored in the dictionary, a member of
    [Object.prototype] (a function, or the prototype itself for
    [__proto__]), the property [key] of the object that was made the
    prototype, or [undefined]. *)
Inductive Property (V : Type) :=
| Value (v : V)
| Inherited (key : string)
| Via (holder : V) (key : string)
| Undefined.
Arguments Value {V} v.
Arguments Inherited {V} key.
Arguments Via {V} holder key.
Arguments Undefined {V}.

(** [{}] *)
Definition empty_object {V : Type} : Dictionary V :=
  mkDictionary ∅ Object_prototype.

(** The value stored under [key]: the own property, or for [__proto__]
    the object that an assignment made the prototype. *)
Definition stored {V : Type} (dictionary : Dictionary V) (key : string) : option V :=
  if String.eqb key "__proto__" then
    match prototype_of dictionary with
    | Replaced holder => Some holder
    | Object_prototype => None
    end
  else own_properties dictionary !! key.

(** [dictionary[key]] *)
Definition JS_get {V : Type} (realm : list string) (dictionary : Dictionary V)
    (key : string) : Property V :=
  match stored dictionary key with
  | Some v => Value v
  | None =>
      match prototype_of dictionary with
      | Replaced holder => Via holder key
      | Object_prototype =>
          if inherited_member realm key then Inherited key else Undefined
      end
  end.

(** [dictionary[key] = value], for a value that is an object: the
    setter of [__proto__] replaces the prototype; any other key becomes
    an own property, no other member that a dictionary inherits being
    read-only or having a setter that does otherwise. *)
Definition JS_set {V : Type} (dictionary : Dictionary V) (key : string) (value : V)
  : Dictionary V :=
  if String.eqb key "__proto__"
  then mkDictionary (own_properties dictionary) (Replaced value)
  else mkDictionary (<[key := value]> (own_properties dictionary))
         (prototype_of dictionary).

(** The own property [key]; [__proto__] is never one, an assignment to
    it going to the setter. *)
Definition JS_own {V : Type} (dictionary : Dictionary V) (key : string) : option V :=
  if String.eqb key "__proto__" then None else own_properties dictionary !! key.

(** [dictionary.hasOwnProperty(key)]: the method is the one of
    [Object.prototype] unless an own property of that name shadows it,
    and the call of a value that is no function raises. *)
Definition JS_hasOwnProperty {V : Type} (dictionary : Dictionary V) (key : string)
  : Completion bool :=
  match JS_own dictionary "hasOwnProperty" with
  | Some _ => Throw TypeError
  | None => Return (bool_decide (is_Some (JS_own dictionary key)))
  end.

(** ** NodeId *)

Inductive NodeIdValue :=
| NUMERIC (value : N)
| STRING (value : string)
| GUID (value : string)
| BYTESTRING (value : string).

Record NodeId := mkNodeId {
  identifier : NodeIdValue;
  namespace : N
}.

#[global] Instance NodeIdValue_eq_dec : EqDecision NodeIdValue.
Proof. solve_decision. Defined.
#[global] Instance NodeId_eq_dec : EqDecision NodeId.
Proof. solve_decision. Defined.

(** [makeNodeId(value)]: a numeric id in namespace 0. *)
Definition makeNodeId (value : N) : NodeId :=
  {| identifier := NUMERIC value; namespace := 0 |}.

(** Modelled from the spec: [NodeId.prototype.toString] lives in
    [lib/datamodel/nodeid.js]; the canonical string form is [ns=N;i=M],
    [i=M] in namespace 0, and likewise with [s=], [g=], [b=]. *)
Definition NodeId_toString (nodeId : NodeId) : string :=
  let prefix :=
    if (namespace nodeId =? 0)%N then ""
    else "ns=" +:+ pretty (namespace nodeId) +:+ ";" in
  match identifier nodeId with
  | NUMERIC v => prefix +:+ "i=" +:+ pretty v
  | STRING v => prefix +:+ "s=" +:+ v
  | GUID v => prefix +:+ "g=" +:+ v
  | BYTESTRING v => prefix +:+ "b=" +:+ v
  end.

Definition is_decimal_digit (c : ascii) : bool :=
  let n := nat_of_ascii c in ((48 <=? n) && (n <=? 57))%nat.

Fixpoint all_decimal (str : string) : bool :=
  match str with
  | EmptyString => true
  | String c rest => is_decimal_digit c && all_decimal rest
  end.

Definition parse_decimal (str : string) : option N :=
  match str with
  | EmptyString => None
  | _ => if all_decimal str
         then Z.to_N <$> parse_digits 10 str None
         else None
  end.

Definition parse_identifier (str : string) : option NodeIdValue :=
  match str with
  | String "i" (String "=" rest) => NUMERIC <$> parse_decimal rest
  | String "s" (String "=" rest) => Some (STRING rest)
  | String "g" (String "=" rest) => Some (GUID rest)
  | String "b" (String "=" rest) => Some (BYTESTRING rest)
  | _ => None
  end.

(** The text before the first [sep] and the text after it. *)
Fixpoint split_once (sep : ascii) (str : string) : option (string * string) :=
  match str with
  | EmptyString => None
  | String c rest =>
      if Ascii.eqb c sep then Some (EmptyString, rest)
      else '(before, after) ← split_once sep rest; Some (String c before, after)
  end.

(** An argument that is a NodeId or a string. *)
Inductive NodeIdOrString :=
| ofNodeId (nodeId : NodeId)
| ofString (str : string).

(** Modelled from the spec: [resolveNodeId] lives in
    [lib/datamodel/nodeid.js]. It is the identity on a NodeId; a string
    is parsed as [i=], [ns=N;i=], [ns=N;s=], [ns=N;g=], [ns=N;b=], the
    namespace defaulting to 0, and a string of another shape raises. *)
Definition resolveNodeId (nodeid : NodeIdOrString) : Completion NodeId :=
  match nodeid with
  | ofNodeId nodeId => Return nodeId
  | ofString str =>
      let parsed :=
        match str with
        | String "n" (String "s" (String "=" rest)) =>
            '(ns, ident) ← split_once ";" rest;
            n ← parse_decimal ns;
            v ← parse_identifier ident;
            Some {| identifier := v; namespace := n |}
        | _ =>
            v ← parse_identifier str;
            Some {| identifier := v; namespace := 0 |}
        end in
      match parsed with
      | Some nodeId => Return nodeId
      | None => Throw (Error "String cannot be coerced to a nodeId")
      end
  end.

(** ** The data model of the address space *)

Inductive NodeClass :=
| NodeClass_Object
| NodeClass_Variable
| NodeClass_Method
| NodeClass_ObjectType
| NodeClass_VariableType
| NodeClass_ReferenceType
| NodeClass_DataType
| NodeClass_View.

#[global] Instance NodeClass_eq_dec : EqDecision NodeClass.
Proof. solve_decision. Defined.

Inductive StatusCode :=
| Good
| Bad_NodeIdUnknown
| Bad_NodeIdInvalid
| Bad_NothingToDo
| Bad_BrowseNameInvalid
| Bad_NoMatch
| Bad_AttributeIdInvalid
| Bad_TooManyMatches
| Bad_QueryTooComplex
| Uncertain_ReferenceOutOfServer.

#[global] Instance StatusCode_eq_dec : EqDecision StatusCode.
Proof. solve_decision. Defined.

Record LocalizedText := { text : string }.

Record QualifiedName := {
  namespaceIndex : JSNumber;
  name : option string
}.

Record RelativePathElement := {
  referenceTypeId : NodeId;
  isInverse : bool;
  includeSubtypes : bool;
  targetName : option QualifiedName
}.

Record RelativePath := { elements : list RelativePathElement }.

Record BrowsePath := {
  startingNode : NodeId;
  relativePath : RelativePath
}.

Record BrowsePathTarget := {
  targetId : NodeId;
  remainingPathIndex : Z
}.

Record BrowsePathResult := {
  statusCode : StatusCode;
  targets : list BrowsePathTarget
}.

(** A flag that may be [null] or missing, as [params.isForward]. *)
Inductive JSFlag :=
| JSnull
| JSundefined
| JSbool (b : bool).

(** [!flag] *)
Definition JSnot (flag : JSFlag) : bool :=
  match flag with
  | JSbool b => negb b
  | _ => true
  end.

(** *** reference.js *)

Definition isNodeIdString (str : string) : bool :=
  String.eqb (substring0 2 str) "i=" || String.eqb (substring0 3 str) "ns=".

Record Reference := {
  ref_referenceType : string;
  ref_nodeId : NodeId;
  ref_isForward : JSFlag
}.

Definition is_valid_reference (ref : Reference) : Completion bool :=
  let hasRequestedProperties :=
    match ref_isForward ref with JSbool _ => true | _ => false end in
  if negb hasRequestedProperties then Return false
  else
    assert (negb (isNodeIdString (ref_referenceType ref)));;
    Return true.

(** [new Reference(options)] *)
Definition new_Reference (options : Reference) : Completion Reference :=
  valid ← is_valid_reference options;
  assert valid;;
  Return options.

(** *** Nodes

    [browseNodeByTargetName] is the node's own method (it lives in
    [basenode.js]); a node carries it as a field, as the JavaScript
    object does. [truthy_member] tells, by name, which members of the
    node object are truthy; the address space reads one only through a
    dictionary whose prototype the node has become. *)
Record BaseNode := {
  nodeId : NodeId;
  browseName : string;
  nodeClass : NodeClass;
  inverseName : option LocalizedText;
  references : list Reference;
  browseNodeByTargetName : RelativePathElement -> list NodeId;
  truthy_member : string -> bool
}.

(** [realm] is not a field of the object: it names the members that
    the libraries loaded in the program have added to
    [Object.prototype], which every dictionary of the address space
    inherits. *)
Record AddressSpace := mkAddressSpace {
  realm : list string;
  _nodeid_index : gmap string BaseNode;
  _aliases : Dictionary NodeId;
  _objectTypeMap : Dictionary BaseNode;
  _objectMap : Dictionary BaseNode;
  _variableTypeMap : Dictionary BaseNode;
  _referenceTypeMap : Dictionary BaseNode;
  _referenceTypeMapInv : Dictionary BaseNode;
  _dataTypeMap : Dictionary BaseNode
}.

(** [new AddressSpace()] in a program whose libraries have added the
    members [realm_] to [Object.prototype]. *)
Definition new_AddressSpace_in (realm_ : list string) : AddressSpace :=
  mkAddressSpace realm_ ∅ empty_object empty_object empty_object empty_object
    empty_object empty_object empty_object.

(** [new AddressSpace()] in a program that loads what the sources
    require and nothing else. *)
Definition new_AddressSpace : AddressSpace := new_AddressSpace_in [].

Definition add_alias (self : AddressSpace) (alias_name : string) (nodeId : NodeId)
  : AddressSpace :=
  mkAddressSpace (realm self) (_nodeid_index self)
    (JS_set (_aliases self) alias_name nodeId)
    (_objectTypeMap self) (_objectMap self) (_variableTypeMap self)
    (_referenceTypeMap self) (_referenceTypeMapInv self) (_dataTypeMap self).

(** [AddressSpace.prototype.resolveNodeId]. Where [hasOwnProperty]
    answers yes, the read that follows yields that own property. A
    NodeId that became the prototype of the aliases has no member
    [hasOwnProperty] of its own, so the method is still the one of
    [Object.prototype]. *)
Definition AddressSpace_resolveNodeId (self : AddressSpace) (nodeid : NodeIdOrString)
  : Completion NodeId :=
  match nodeid with
  | ofString str =>
      JS_hasOwnProperty (_aliases self) str ≫= fun known : bool =>
      match JS_own (_aliases self) str with
      | Some aliased => if known then Return aliased else resolveNodeId nodeid
      | None => resolveNodeId nodeid
      end
  | ofNodeId _ => resolveNodeId nodeid
  end.

(** The result is [None] where JavaScript yields [undefined]. *)
Definition findObject (self : AddressSpace) (nodeId : NodeIdOrString)
  : Completion (option BaseNode) :=
  nodeId ← AddressSpace_resolveNodeId self nodeId;
  Return (_nodeid_index self !! NodeId_toString nodeId).

Definition findObjectByBrowseName (self : AddressSpace) (browseNameToFind : string)
  : Property BaseNode :=
  JS_get (realm self) (_objectMap self) browseNameToFind.

(** [_register] writes the id index before it looks at the class, so the
    address space it leaves behind is returned next to the completion. *)
Definition _register (self : AddressSpace) (object : BaseNode)
  : Completion unit * AddressSpace :=
  let key := NodeId_toString (nodeId object) in
  match _nodeid_index self !! key with
  | Some _ => (Throw AssertionError, self)
  | None =>
      let realm_ := realm self in
      let index := <[key := object]> (_nodeid_index self) in
      let aliases := _aliases self in
      let objectTypeMap := _objectTypeMap self in
      let objectMap := _objectMap self in
      let variableTypeMap := _variableTypeMap self in
      let referenceTypeMap := _referenceTypeMap self in
      let referenceTypeMapInv := _referenceTypeMapInv self in
      let dataTypeMap := _dataTypeMap self in
      let indexed :=
        mkAddressSpace realm_ index aliases objectTypeMap objectMap variableTypeMap
          referenceTypeMap referenceTypeMapInv dataTypeMap in
      match nodeClass object with
      | NodeClass_ObjectType =>
          (Return tt,
           mkAddressSpace realm_ index aliases
             (JS_set objectTypeMap (browseName object) object) objectMap
             variableTypeMap referenceTypeMap referenceTypeMapInv dataTypeMap)
      | NodeClass_VariableType =>
          (Return tt,
           mkAddressSpace realm_ index aliases objectTypeMap objectMap
             (JS_set variableTypeMap (browseName object) object)
             referenceTypeMap referenceTypeMapInv dataTypeMap)
      | NodeClass_Object | NodeClass_Variable =>
          (Return tt,
           mkAddressSpace realm_ index aliases objectTypeMap
             (JS_set objectMap (browseName object) object)
             variableTypeMap referenceTypeMap referenceTypeMapInv dataTypeMap)
      | NodeClass_ReferenceType =>
          match inverseName object with
          | None => (Throw TypeError, indexed)
          | Some inverse =>
              if String.eqb (text inverse) "" then (Throw AssertionError, indexed)
              else
                (Return tt,
                 mkAddressSpace realm_ index aliases objectTypeMap objectMap
                   variableTypeMap
                   (JS_set referenceTypeMap (browseName object) object)
                   (JS_set referenceTypeMapInv (text inverse) object)
                   dataTypeMap)
          end
      | NodeClass_DataType =>
          (Return tt,
           mkAddressSpace realm_ index aliases objectTypeMap objectMap variableTypeMap
             referenceTypeMap referenceTypeMapInv
             (JS_set dataTypeMap (browseName object) object))
      | NodeClass_Method | NodeClass_View =>
          (Throw (Error "Invalid class name specified"), indexed)
      end
  end.

(** ** Browse path translation *)

(** [list.forEach(body)] where the body updates [res] and may raise. *)
Definition forEach {A R : Type} (body : R -> A -> Completion R)
  : list A -> R -> Completion R :=
  fix go (items : list A) (res : R) : Completion R :=
    match items with
    | [] => Return res
    | item :: items' => res' ← body res item; go items' res'
    end.

(** The closure [explore_element] of [browsePath]; [rest] is
    [elements] from [index] on, and [res] is the array the closure
    pushes to. [curNodeObject] is [None] when the caller passed
    [undefined]. *)
Fixpoint explore_from (self : AddressSpace) (rest : list RelativePathElement)
    (elements : list RelativePathElement) (index : nat)
    (curNodeObject : option BaseNode) (res : list BrowsePathTarget)
  : Completion (list BrowsePathTarget) :=
  match rest with
  | [] => Throw AssertionError
  | element :: rest' =>
      match curNodeObject with
      | None => Throw TypeError
      | Some cur =>
          let nodeIds := browseNodeByTargetName cur element in
          let targets :=
            map (fun nodeId =>
                   {| targetId := nodeId;
                      remainingPathIndex :=
                        Z.of_nat (length elements) - Z.of_nat index |})
                nodeIds in
          let is_last := (index + 1 =? length elements)%nat in
          if negb is_last then
            forEach (fun res target =>
                       node ← findObject self (ofNodeId (targetId target));
                       explore_from self rest' elements (index + 1) node res)
                    targets res
          else
            forEach (fun res target =>
                       Return (res ++ [{| targetId := targetId target;
                                          remainingPathIndex := 0xFFFFFFFF |}])%list)
                    targets res
      end
  end.

Definition explore_element (self : AddressSpace) (curNodeObject : option BaseNode)
    (elements : list RelativePathElement) (index : nat)
    (res : list BrowsePathTarget) : Completion (list BrowsePathTarget) :=
  explore_from self (drop index elements) elements index curNodeObject res.

(** [new BrowsePathResult({statusCode: code})] *)
Definition BrowsePathResult_of (code : StatusCode) : BrowsePathResult :=
  {| statusCode := code; targets := [] |}.

(** [!targetName || !targetName.name || targetName.name.length === 0] *)
Definition targetName_missing (element : RelativePathElement) : bool :=
  match targetName element with
  | None => true
  | Some qualified =>
      match name qualified with
      | None => true
      | Some str => String.eqb str ""
      end
  end.

Definition browsePath (self : AddressSpace) (browsePath : BrowsePath)
  : Completion BrowsePathResult :=
  startingNode ← findObject self (ofNodeId (startingNode browsePath));
  match startingNode with
  | None => Return (BrowsePathResult_of Bad_NodeIdUnknown)
  | Some _ =>
      let elements := elements (relativePath browsePath) in
      if (length elements =? 0)%nat
      then Return (BrowsePathResult_of Bad_NothingToDo)
      else
        let l := length elements in
        match elements !! (l - 1)%nat with
        | None => Throw TypeError
        | Some last_el =>
            if targetName_missing last_el
            then Return (BrowsePathResult_of Bad_BrowseNameInvalid)
            else
              res ← explore_element self startingNode elements 0 [];
              if (length res =? 0)%nat
              then Return (BrowsePathResult_of Bad_NoMatch)
              else Return {| statusCode := Good; targets := res |}
        end
  end.

Definition rootFolderId : NodeId := makeNodeId 84.

Definition constructBrowsePath (startingNode : NodeIdOrString) (path : string)
  : BrowsePath :=
  let startingNode :=
    match startingNode with
    | ofString "/" => ofNodeId rootFolderId
    | _ => startingNode
    end in
  let arr := split "." path in
  let elements :=
    map (fun browsePathElement =>
           let s := split ":" browsePathElement in
           let '(namespaceIndex, browsePathElement) :=
             match s with
             | [s0; s1] => (parseInt s0, s1)
             | _ => (Int 0, browsePathElement)
             end in
           {| referenceTypeId := makeNodeId 0;
              isInverse := false;
              includeSubtypes := false;
              targetName := Some {| namespaceIndex := namespaceIndex;
                                    name := Some browsePathElement |} |})
        arr in
  {| startingNode := rootFolderId;
     relativePath := {| elements := elements |} |}.

(** [value.should.equal(expected)] on a number: [should] is a member of
    [Object.prototype] only in a program that has loaded the library of
    that name, which this file does not require; elsewhere the read
    yields [undefined] and the call of [equal] on it raises. *)
Definition should_equal (self : AddressSpace) (value expected : Z) : Completion unit :=
  if bool_decide ("should" ∈ realm self)
  then assert (value =? expected)
  else Throw TypeError.

Definition simpleBrowsePath (self : AddressSpace) (startingNode : NodeIdOrString)
    (pathname : string) : Completion (option NodeId) :=
  let browsePath_ := constructBrowsePath startingNode pathname in
  browsePathResult ← browsePath self browsePath_;
  if decide (statusCode browsePathResult = Good) then
    assert (1 <=? length (targets browsePathResult))%nat;;
    match last (targets browsePathResult) with
    | None => Throw TypeError
    | Some target =>
        should_equal self (remainingPathIndex target) 0xFFFFFFFF;;
        Return (Some (targetId target))
    end
  else Return None.

(** ** Reference types *)

Definition is_ReferenceType (object : BaseNode) : bool :=
  bool_decide (nodeClass object = NodeClass_ReferenceType).

(** The two finders of reference types read a dictionary and assert
    that what they read is falsy or a reference type of the name asked
    for. A member of [Object.prototype] is a function or an object, so
    truthy and without a node class: the assertion fails. Read through
    a node that became the prototype, a truthy member fails it as well
    (modelled from the spec: a node holds attributes and references by
    node id, no member of it is itself a reference type node), and a
    falsy one is returned. The result is [None] where JavaScript yields
    [undefined] or such a falsy member. *)
Definition findReferenceType (self : AddressSpace) (refType : string)
  : Completion (option BaseNode) :=
  if String.eqb (substring0 2 refType) "i=" then
    nodeId ← resolveNodeId (ofString refType);
    object ← findObject self (ofNodeId nodeId);
    assert (match object with
            | Some found => is_ReferenceType found
            | None => false
            end);;
    Return object
  else
    match JS_get (realm self) (_referenceTypeMap self) refType with
    | Value found =>
        assert (is_ReferenceType found && String.eqb (browseName found) refType);;
        Return (Some found)
    | Inherited _ => Throw AssertionError
    | Via holder key =>
        if truthy_member holder key then Throw AssertionError else Return None
    | Undefined => Return None
    end.

Definition findReferenceTypeFromInverseName (self : AddressSpace)
    (inverseName_ : string) : Completion (option BaseNode) :=
  match JS_get (realm self) (_referenceTypeMapInv self) inverseName_ with
  | Value found =>
      if is_ReferenceType found then
        match inverseName found with
        | None => Throw TypeError
        | Some inverse =>
            assert (String.eqb (text inverse) inverseName_);;
            Return (Some found)
        end
      else Throw AssertionError
  | Inherited _ => Throw AssertionError
  | Via holder key =>
      if truthy_member holder key then Throw AssertionError else Return None
  | Undefined => Return None
  end.

Record ReferenceParams := {
  referenceType : string;
  isForward : JSFlag
}.

Definition normalizeReferenceType (self : AddressSpace) (params : ReferenceParams)
  : Completion ReferenceParams :=
  let params :=
    {| referenceType := referenceType params;
       isForward := match isForward params with
                    | JSnull => JSbool true
                    | other => other
                    end |} in
  n1 ← findReferenceType self (referenceType params);
  n2 ← findReferenceTypeFromInverseName self (referenceType params);
  match n1, n2 with
  | None, None => Return params
  | Some _, _ =>
      assert (negb (bool_decide (is_Some n2)));;
      Return params
  | None, Some found =>
      Return {| referenceType := browseName found;
                isForward := JSbool (JSnot (isForward params)) |}
  end.

Definition inverseReferenceType (self : AddressSpace) (referenceType_ : string)
  : Completion string :=
  n1 ← findReferenceType self referenceType_;
  n2 ← findReferenceTypeFromInverseName self referenceType_;
  match n1 with
  | Some forward =>
      assert (negb (bool_decide (is_Some n2)));;
      match inverseName forward with
      | None => Throw TypeError
      | Some inverse => Return (text inverse)
      end
  | None =>
      match n2 with
      | Some backward => Return (browseName backward)
      | None => Throw AssertionError
      end
  end.

(** The address spaces that [new AddressSpace()], [add_alias] and
    [_register] build, in any program. A call of [_register] that
    raises has written the id index already; the space it leaves is
    included. *)
Inductive registered : AddressSpace -> Prop :=
| registered_new realm_ : registered (new_AddressSpace_in realm_)
| registered_alias self alias_name nodeId :
    registered self -> registered (add_alias self alias_name nodeId)
| registered_register self object :
    registered self -> registered (snd (_register self object)).

(** The browse-name index that holds the nodes of a class. *)
Definition index_of_class (self : AddressSpace) (class : NodeClass)
  : option (Dictionary BaseNode) :=
  match class with
  | NodeClass_ObjectType => Some (_objectTypeMap self)
  | NodeClass_VariableType => Some (_variableTypeMap self)
  | NodeClass_Object | NodeClass_Variable => Some (_objectMap self)
  | NodeClass_ReferenceType => Some (_referenceTypeMap self)
  | NodeClass_DataType => Some (_dataTypeMap self)
  | NodeClass_Method | NodeClass_View => None
  end.

(** The invariants the specification lists for an address space: a node
    is filed under its own id, so once and alone; it is in the
    browse-name index of its class; the inverse name of a reference type
    leads back to it. *)
Record registration_invariants (self : AddressSpace) : Prop := {
  inv_nodeid_key : forall key object,
    _nodeid_index self !! key = Some object ->
    key = NodeId_toString (nodeId object);
  inv_class_index : forall key object,
    _nodeid_index self !! key = Some object ->
    exists index,
      index_of_class self (nodeClass object) = Some index /\
      stored index (browseName object) = Some object;
  inv_forward_inverse : forall browseName_ object,
    stored (_referenceTypeMap self) browseName_ = Some object ->
    exists inverse,
      inverseName object = Some inverse /\
      stored (_referenceTypeMapInv self) (text inverse) = Some object
}.

(** No name is a forward browse name and an inverse name at once. *)
Definition names_disjoint (self : AddressSpace) : Prop :=
  forall name_,
    is_Some (stored (_referenceTypeMap self) name_) ->
    stored (_referenceTypeMapInv self) name_ = None.

(** No reference type is registered under a browse name that begins
    with [i=], which [findReferenceType] would read as a node id. *)
Definition browse_names_plain (self : AddressSpace) : Prop :=
  forall name_,
    is_Some (stored (_referenceTypeMap self) name_) ->
    String.eqb (substring0 2 name_) "i=" = false.

(** ** The client-side publish engine *)

Definition SubscriptionId := Z.

(** A session and a subscription callback are opaque handles. *)
Definition Session := nat.
Definition Callback := nat.
Definition NotificationData := string.

Record SubscriptionAcknowledgement := {
  ack_subscriptionId : SubscriptionId;
  ack_sequenceNumber : Z
}.

Record PublishRequest := {
  requestHeader_timeoutHint : Z;
  request_subscriptionAcknowledgements : list SubscriptionAcknowledgement
}.

Record NotificationMessage := {
  sequenceNumber : Z;
  publishTime : Z;
  notificationData : option (list NotificationData)
}.

Record PublishResponse := {
  subscriptionId : SubscriptionId;
  notificationMessage : NotificationMessage
}.

Record ClientSidePublishEngine := mkEngine {
  session : option Session;
  subscriptionAcknowledgements : list SubscriptionAcknowledgement;
  subscriptionIdFuncMap : gmap Z Callback;
  timeoutHint : Z;
  activeSubscriptionCount : Z;
  nbPendingPublishRequests : Z
}.

(** A call of a subscription callback, as the engine makes it. *)
Record Invocation := {
  invoked_callback : Callback;
  invoked_notificationData : list NotificationData;
  invoked_publishTime : Z
}.

(** What surrounds the engine: the functions queued with
    [setImmediate] (all of them the closure of [send_publish_request],
    so the queue is counted), the requests handed to [session.publish]
    whose callback is still to be called, and the log of the callbacks
    the engine has invoked. *)
Record Runtime := mkRuntime {
  engine : ClientSidePublishEngine;
  immediates : nat;
  published : list PublishRequest;
  awaiting : nat;
  invocations : list Invocation
}.

(** [new ClientSidePublishEngine(session)] *)
Definition new_ClientSidePublishEngine (session : Session) : ClientSidePublishEngine :=
  {| session := Some session;
     subscriptionAcknowledgements := [];
     subscriptionIdFuncMap := ∅;
     timeoutHint := 10000;
     activeSubscriptionCount := 0;
     nbPendingPublishRequests := 0 |}.

Definition new_Runtime (session : Session) : Runtime :=
  mkRuntime (new_ClientSidePublishEngine session) 0 [] 0 [].

(** *** The monad of engine methods: state and exceptions *)

Definition M (A : Type) : Type := Runtime -> Completion A * Runtime.

#[global] Instance M_ret : MRet M := fun _ a rt => (Return a, rt).
#[global] Instance M_bind : MBind M := fun _ _ f m rt =>
  match m rt with
  | (Return a, rt') => f a rt'
  | (Throw e, rt') => (Throw e, rt')
  end.

Definition get_engine : M ClientSidePublishEngine :=
  fun rt => (Return (engine rt), rt).

Definition put_engine (self : ClientSidePublishEngine) : M unit :=
  fun rt =>
    (Return tt,
     mkRuntime self (immediates rt) (published rt) (awaiting rt) (invocations rt)).

Definition assertM (cond : bool) : M unit :=
  fun rt => (assert cond, rt).

(** [setImmediate(task)] *)
Definition setImmediate : M unit :=
  fun rt =>
    (Return tt,
     mkRuntime (engine rt) (S (immediates rt)) (published rt) (awaiting rt)
       (invocations rt)).

(** [self.session.publish(request, callback)]: the request is on its
    way and its callback is awaited. *)
Definition session_publish (request : PublishRequest) : M unit :=
  fun rt =>
    (Return tt,
     mkRuntime (engine rt) (immediates rt) (published rt ++ [request])%list
       (S (awaiting rt)) (invocations rt)).

(** [callback_for_subscription(notificationData, publishTime)] *)
Definition invoke (callback : Callback) (data : list NotificationData) (time : Z)
  : M unit :=
  fun rt =>
    (Return tt,
     mkRuntime (engine rt) (immediates rt) (published rt) (awaiting rt)
       (invocations rt ++
        [{| invoked_callback := callback;
            invoked_notificationData := data;
            invoked_publishTime := time |}])%list).

Definition when (cond : bool) (body : M unit) : M unit :=
  if cond then body else mret tt.

(** *** The methods *)

Definition acknowledge_notification (subscriptionId : SubscriptionId)
    (sequenceNumber : Z) : M unit :=
  self ← get_engine;
  put_engine
    (mkEngine (session self)
       (subscriptionAcknowledgements self ++
        [{| ack_subscriptionId := subscriptionId;
            ack_sequenceNumber := sequenceNumber |}])%list
       (subscriptionIdFuncMap self) (timeoutHint self)
       (activeSubscriptionCount self) (nbPendingPublishRequests self)).

Definition cleanup_acknowledgment_for_subscription (subscriptionId : SubscriptionId)
  : M unit :=
  self ← get_engine;
  put_engine
    (mkEngine (session self)
       (List.filter (fun a => negb (ack_subscriptionId a =? subscriptionId))
          (subscriptionAcknowledgements self))
       (subscriptionIdFuncMap self) (timeoutHint self)
       (activeSubscriptionCount self) (nbPendingPublishRequests self)).

Definition send_publish_request : M unit := setImmediate.

Definition _send_publish_request : M unit :=
  self ← get_engine;
  assertM (bool_decide (is_Some (session self)));;
  let pending := nbPendingPublishRequests self + 1 in
  let subscriptionAcknowledgements_ := subscriptionAcknowledgements self in
  put_engine
    (mkEngine (session self) [] (subscriptionIdFuncMap self) (timeoutHint self)
       (activeSubscriptionCount self) pending);;
  assertM (0 <? pending);;
  let calculatedTimeout := pending * timeoutHint self in
  session_publish
    {| requestHeader_timeoutHint := calculatedTimeout;
       request_subscriptionAcknowledgements := subscriptionAcknowledgements_ |}.

(** The function that [send_publish_request] hands to [setImmediate]. *)
Definition send_publish_request_deferred : M unit :=
  self ← get_engine;
  match session self with
  | None => mret tt
  | Some _ => _send_publish_request
  end.

Definition terminate : M unit :=
  self ← get_engine;
  put_engine
    (mkEngine None (subscriptionAcknowledgements self)
       (subscriptionIdFuncMap self) (timeoutHint self)
       (activeSubscriptionCount self) (nbPendingPublishRequests self)).

Definition subscriptionCount (self : ClientSidePublishEngine) : nat :=
  size (subscriptionIdFuncMap self).

Definition publishRequestCountInPipeline : nat := 5.

(** [for (i = 0; i < n; i++) body] *)
Fixpoint repeatM (n : nat) (body : M unit) : M unit :=
  match n with
  | O => mret tt
  | S n' => body;; repeatM n' body
  end.

Definition registerSubscriptionCallback (subscriptionId : SubscriptionId)
    (timeoutHint_ : Z) (callback : Callback) : M unit :=
  self ← get_engine;
  assertM (negb (bool_decide (is_Some (subscriptionIdFuncMap self !! subscriptionId))));;
  put_engine
    (mkEngine (session self) (subscriptionAcknowledgements self)
       (<[subscriptionId := callback]> (subscriptionIdFuncMap self))
       (Z.max (timeoutHint self) timeoutHint_)
       (activeSubscriptionCount self + 1) (nbPendingPublishRequests self));;
  send_publish_request;;
  repeatM (publishRequestCountInPipeline - 1) send_publish_request.

Definition unregisterSubscriptionCallback (subscriptionId : SubscriptionId)
  : M unit :=
  self ← get_engine;
  let count := activeSubscriptionCount self - 1 in
  put_engine
    (mkEngine (session self) (subscriptionAcknowledgements self)
       (subscriptionIdFuncMap self) (timeoutHint self) count
       (nbPendingPublishRequests self));;
  assertM (bool_decide (is_Some (subscriptionIdFuncMap self !! subscriptionId)));;
  put_engine
    (mkEngine (session self) (subscriptionAcknowledgements self)
       (delete subscriptionId (subscriptionIdFuncMap self)) (timeoutHint self)
       count (nbPendingPublishRequests self)).

Definition _receive_publish_response (response : PublishResponse) : M unit :=
  let subscriptionId := subscriptionId response in
  let notificationMessage := notificationMessage response in
  let notificationData := default [] (notificationData notificationMessage) in
  when (negb (length notificationData =? 0)%nat)
       (acknowledge_notification subscriptionId
          (sequenceNumber notificationMessage));;
  self ← get_engine;
  match subscriptionIdFuncMap self !! subscriptionId, session self with
  | Some callback_for_subscription, Some _ =>
      invoke callback_for_subscription notificationData
        (publishTime notificationMessage)
  | _, _ => mret tt
  end.

(** The callback that [_send_publish_request] gives to
    [session.publish]; [response] is [None] when the session reports an
    error. *)
Definition publish_callback (response : option PublishResponse) : M unit :=
  self ← get_engine;
  put_engine
    (mkEngine (session self) (subscriptionAcknowledgements self)
       (subscriptionIdFuncMap self) (timeoutHint self)
       (activeSubscriptionCount self) (nbPendingPublishRequests self - 1));;
  match response with
  | None => mret tt
  | Some response => _receive_publish_response response
  end;;
  self ← get_engine;
  when (0 <? activeSubscriptionCount self) send_publish_request.

(** *** What can happen to an engine *)

Inductive Op :=
| Op_registerSubscriptionCallback (subscriptionId : SubscriptionId)
    (timeoutHint_ : Z) (callback : Callback)
| Op_unregisterSubscriptionCallback (subscriptionId : SubscriptionId)
| Op_acknowledge_notification (subscriptionId : SubscriptionId) (sequenceNumber : Z)
| Op_cleanup_acknowledgment_for_subscription (subscriptionId : SubscriptionId)
| Op_send_publish_request
| Op_terminate
| Op_receive_publish_response (response : PublishResponse)
| Op_immediate
| Op_publish_callback (response : option PublishResponse).

(** The event loop runs the oldest queued function, if any. *)
Definition run_immediate : M unit :=
  fun rt =>
    match immediates rt with
    | O => (Return tt, rt)
    | S queued =>
        send_publish_request_deferred
          (mkRuntime (engine rt) queued (published rt) (awaiting rt)
             (invocations rt))
    end.

(** The session answers one awaited request, if any. *)
Definition run_publish_callback (response : option PublishResponse) : M unit :=
  fun rt =>
    match awaiting rt with
    | O => (Return tt, rt)
    | S others =>
        publish_callback response
          (mkRuntime (engine rt) (immediates rt) (published rt) others
             (invocations rt))
    end.

Definition perform (op : Op) : M unit :=
  match op with
  | Op_registerSubscriptionCallback subscriptionId timeoutHint_ callback =>
      registerSubscriptionCallback subscriptionId timeoutHint_ callback
  | Op_unregisterSubscriptionCallback subscriptionId =>
      unregisterSubscriptionCallback subscriptionId
  | Op_acknowledge_notification subscriptionId sequenceNumber =>
      acknowledge_notification subscriptionId sequenceNumber
  | Op_cleanup_acknowledgment_for_subscription subscriptionId =>
      cleanup_acknowledgment_for_subscription subscriptionId
  | Op_send_publish_request => send_publish_request
  | Op_terminate => terminate
  | Op_receive_publish_response response => _receive_publish_response response
  | Op_immediate => run_immediate
  | Op_publish_callback response => run_publish_callback response
  end.

(** A run: the operations one after the other; an operation that
    raises leaves the state it had reached, and the run goes on. *)
Definition run (ops : list Op) (rt : Runtime) : Runtime :=
  fold_left (fun rt op => snd (perform op rt)) ops rt.

(** ** Sample address spaces and engines *)

(** A [browseNodeByTargetName] given by the table of a node's children:
    the ids of those whose browse name is the target name. *)
Definition children_named (children : list (string * NodeId))
    (element : RelativePathElement) : list NodeId :=
  match targetName element with
  | Some {| name := Some wanted |} =>
      map snd (List.filter (fun child => String.eqb (fst child) wanted) children)
  | _ => []
  end.

(** The truthy members of a sample node: the fields and the method that
    the address space reads, where they hold a truthy value, and what
    every object inherits. *)
Definition sample_members (browseName_ : string) (inverseName_ : option LocalizedText)
    (key : string) : bool :=
  if String.eqb key "browseName" then negb (String.eqb browseName_ "")
  else if String.eqb key "inverseName" then bool_decide (is_Some inverseName_)
  else bool_decide
         (key ∈ (["nodeId"; "nodeClass"; "references"; "browseNodeByTargetName"]
                 ++ Object_prototype_members)%list).

Definition object_node (id : N) (browseName_ : string)
    (children : list (string * NodeId)) : BaseNode :=
  {| nodeId := makeNodeId id;
     browseName := browseName_;
     nodeClass := NodeClass_Object;
     inverseName := None;
     references :=
       map (fun child => {| ref_referenceType := "Organizes";
                            ref_nodeId := snd child;
                            ref_isForward := JSbool true |}) children;
     browseNodeByTargetName := children_named children;
     truthy_member := sample_members browseName_ None |}.

Definition reference_type_node (id : N) (browseName_ inverseName_ : string)
  : BaseNode :=
  {| nodeId := makeNodeId id;
     browseName := browseName_;
     nodeClass := NodeClass_ReferenceType;
     inverseName := Some {| text := inverseName_ |};
     references := [];
     browseNodeByTargetName := fun _ => [];
     truthy_member := sample_members browseName_ (Some {| text := inverseName_ |}) |}.

Definition register_all (nodes : list BaseNode) (self : AddressSpace) : AddressSpace :=
  fold_left (fun self object => snd (_register self object)) nodes self.

Definition Organizes : BaseNode := reference_type_node 35 "Organizes" "OrganizedBy".

(** Root, Objects and Server, and the alias and reference type of the
    minimal space. *)
Definition minimal_space : AddressSpace :=
  register_all
    [ Organizes;
      object_node 84 "Root" [("Objects", makeNodeId 85)];
      object_node 85 "Objects" [("Server", makeNodeId 2253)];
      object_node 2253 "Server" [] ]
    (add_alias new_AddressSpace "HasTypeDefinition" (makeNodeId 40)).

(** The minimal space in a program that has loaded the library
    should, as the tests of the address space do. *)
Definition minimal_space_under_test : AddressSpace :=
  register_all
    [ Organizes;
      object_node 84 "Root" [("Objects", makeNodeId 85)];
      object_node 85 "Objects" [("Server", makeNodeId 2253)];
      object_node 2253 "Server" [] ]
    (add_alias (new_AddressSpace_in ["should"]) "HasTypeDefinition" (makeNodeId 40)).

(** A node that finds its children as the nodes of the program do: among
    the targets of its references, those that the address space holds
    under the browse name asked for. [loaded] lists the nodes that the
    address space holds, by id and browse name. *)
Definition linked_node (id : N) (browseName_ : string) (targets : list NodeId)
    (loaded : list (NodeId * string)) : BaseNode :=
  {| nodeId := makeNodeId id;
     browseName := browseName_;
     nodeClass := NodeClass_Object;
     inverseName := None;
     references :=
       map (fun target => {| ref_referenceType := "Organizes";
                             ref_nodeId := target;
                             ref_isForward := JSbool true |}) targets;
     browseNodeByTargetName := fun element =>
       match targetName element with
       | Some {| name := Some wanted |} =>
           List.filter
             (fun target =>
                bool_decide ((target, wanted) ∈ loaded))
             targets
       | _ => []
       end;
     truthy_member := sample_members browseName_ None |}.

Definition partly_loaded : list (NodeId * string) :=
  [ (makeNodeId 84, "Root"); (makeNodeId 85, "Objects"); (makeNodeId 2253, "Server") ].

(** A partial load: Root organizes Objects and a node [i=999] that was
    never registered; Objects organizes Server. *)
Definition partly_loaded_space : AddressSpace :=
  register_all
    [ Organizes;
      linked_node 84 "Root" [makeNodeId 85; makeNodeId 999] partly_loaded;
      linked_node 85 "Objects" [makeNodeId 2253] partly_loaded;
      linked_node 2253 "Server" [] partly_loaded ]
    new_AddressSpace.


(** A reference type whose browse name is a member of every object. *)
Definition shadowing_space : AddressSpace :=
  register_all [reference_type_node 9003 "constructor" "BuiltBy"] new_AddressSpace.

Definition HasChild : BaseNode := reference_type_node 34 "HasChild" "ChildOf".
Definition HasParent : BaseNode := reference_type_node 9001 "HasParent" "HasChild".

(** Two reference types, the inverse name of one being the browse name
    of the other. *)
Definition clashing_space : AddressSpace :=
  register_all [HasChild; HasParent] new_AddressSpace.

(** A reference type of namespace 1, [ns=1;i=5]. *)
Definition Feeds : BaseNode :=
  {| nodeId := {| identifier := NUMERIC 5; namespace := 1 |};
     browseName := "Feeds";
     nodeClass := NodeClass_ReferenceType;
     inverseName := Some {| text := "FedBy" |};
     references := [];
     browseNodeByTargetName := fun _ => [];
     truthy_member := sample_members "Feeds" (Some {| text := "FedBy" |}) |}.

Definition namespaced_space : AddressSpace :=
  register_all [Feeds] new_AddressSpace.

(** A reference type whose browse name reads as a node id. *)
Definition numbered_space : AddressSpace :=
  register_all [reference_type_node 9002 "i=7" "SeventhOf"] new_AddressSpace.

Definition data_change (sid seq : Z) : PublishResponse :=
  {| subscriptionId := sid;
     notificationMessage :=
       {| sequenceNumber := seq; publishTime := 0;
          notificationData := Some ["DataChangeNotification"; "EventNotificationList"] |} |}.

Definition keep_alive (sid seq : Z) : PublishResponse :=
  {| subscriptionId := sid;
     notificationMessage :=
       {| sequenceNumber := seq; publishTime := 0; notificationData := None |} |}.

Definition is_register_or_immediate (op : Op) : bool :=
  match op with
  | Op_registerSubscriptionCallback _ _ _ | Op_immediate => true
  | _ => false
  end.

(** The subscription ids that the operations register, in order. *)
Definition registered_ids (ops : list Op) : list SubscriptionId :=
  omap (fun op => match op with
                  | Op_registerSubscriptionCallback subscriptionId _ _ =>
                      Some subscriptionId
                  | _ => None
                  end) ops.

(** An address space without dangling references: every id that a
    registered node hands out for a path element is registered. *)
Definition closed (self : AddressSpace) : Prop :=
  forall key node element id,
    _nodeid_index self !! key = Some node ->
    id ∈ browseNodeByTargetName node element ->
    is_Some (_nodeid_index self !! NodeId_toString id).

(** Modelled from the spec: [browseNodeByTargetName] lives in
    [basenode.js]; it yields the children of the node whose browse name
    is the target name of the element. A reference holds the id of its
    target and no name, so the name is the one of the node that the
    address space holds under that id: every id handed out is the
    target of a reference of the node and is registered under the
    browse name asked for. *)
Definition matches_children (self : AddressSpace) : Prop :=
  forall key node element id,
    _nodeid_index self !! key = Some node ->
    id ∈ browseNodeByTargetName node element ->
    (exists reference,
        reference ∈ references node /\ ref_nodeId reference = id) /\
    exists child,
      _nodeid_index self !! NodeId_toString id = Some child /\
      targetName element ≫= name = Some (browseName child).

(** The sentinel of a target that consumed the whole path. *)
Definition is_sentinel (target : BrowsePathTarget) : Prop :=
  remainingPathIndex target = 0xFFFFFFFF.

(** The entry of a dictionary under a name, for a dictionary that has
    the prototype of its creation: the node stored under the name;
    without one the answer is absent, unless the name is one that every
    object inherits, which is refused. *)
Definition entry_of (realm_ : list string) (dictionary : Dictionary BaseNode)
    (name_ : string) : Completion (option BaseNode) :=
  match stored dictionary name_ with
  | Some object => Return (Some object)
  | None =>
      if inherited_member realm_ name_ then Throw AssertionError
      else Return None
  end.

(** [findReferenceType] as described: a name that begins with [i=] is
    resolved as a node id and the node of that id is returned, which
    has to be there and to be a reference type; another name is looked
    up in the browse-name index of reference types, whose entry is
    returned; without an entry the answer is absent, unless the name is
    one that every object inherits, which is refused. *)
Definition findReferenceType_described (self : AddressSpace) (refType : string)
  : Completion (option BaseNode) :=
  if String.eqb (substring0 2 refType) "i=" then
    nodeId ← resolveNodeId (ofString refType);
    match _nodeid_index self !! NodeId_toString nodeId with
    | Some object =>
        if is_ReferenceType object then Return (Some object)
        else Throw AssertionError
    | None => Throw AssertionError
    end
  else entry_of (realm self) (_referenceTypeMap self) refType.

(** ** Further operations of the address space and of references *)

#[global] Instance NodeIdOrString_eq_dec : EqDecision NodeIdOrString.
Proof. solve_decision. Defined.


Definition findObjectType (self : AddressSpace) (browseName_ : string)
  : Property BaseNode :=
  JS_get (realm self) (_objectTypeMap self) browseName_.

Definition findDataType (self : AddressSpace) (browseName_ : string)
  : Property BaseNode :=
  JS_get (realm self) (_dataTypeMap self) browseName_.

Definition findVariableType (self : AddressSpace) (browseName_ : string)
  : Property BaseNode :=
  JS_get (realm self) (_variableTypeMap self) browseName_.


(** The ids that a depth-first walk along [rest] reaches from [node]:
    the children matched by the last element, for every way of
    matching the elements before it; a child that is not registered
    leads nowhere. *)
Fixpoint descend (self : AddressSpace) (rest : list RelativePathElement)
    (node : BaseNode) : list NodeId :=
  match rest with
  | [] => []
  | [element] => browseNodeByTargetName node element
  | element :: rest' =>
      flat_map (fun id =>
                  match _nodeid_index self !! NodeId_toString id with
                  | Some child => descend self rest' child
                  | None => []
                  end)
               (browseNodeByTargetName node element)
  end.

(** The target recorded for a node reached at the end of the path. *)
Definition sentinel_target (id : NodeId) : BrowsePathTarget :=
  {| targetId := id; remainingPathIndex := 0xFFFFFFFF |}.

(** [browsePath] as described: the checks in their order, then the
    targets that the walk produces, each with the sentinel. *)
Definition browsePath_described (self : AddressSpace) (browsePath_ : BrowsePath)
  : BrowsePathResult :=
  match _nodeid_index self !! NodeId_toString (startingNode browsePath_) with
  | None => BrowsePathResult_of Bad_NodeIdUnknown
  | Some node =>
      let elements_ := elements (relativePath browsePath_) in
      match last elements_ with
      | None => BrowsePathResult_of Bad_NothingToDo
      | Some last_element =>
          if targetName_missing last_element
          then BrowsePathResult_of Bad_BrowseNameInvalid
          else
            match map sentinel_target (descend self elements_ node) with
            | [] => BrowsePathResult_of Bad_NoMatch
            | produced => {| statusCode := Good; targets := produced |}
            end
      end
  end.

(** [pieces.join(sep)] *)
Fixpoint join (sep : string) (pieces : list string) : string :=
  match pieces with
  | [] => EmptyString
  | [piece] => piece
  | piece :: pieces' => piece +:+ sep +:+ join sep pieces'
  end.

Fixpoint has_char (c : ascii) (str : string) : bool :=
  match str with
  | EmptyString => false
  | String c' rest => Ascii.eqb c' c || has_char c rest
  end.

(** [Array(n).join('-')]: one dash between each two of [n] empty
    slots. *)
Fixpoint dashes_between (n : nat) : string :=
  match n with
  | O | S O => EmptyString
  | S n' => String "-" (dashes_between n')
  end.

(** [_arrow(text, length, isForward)] of reference.js *)
Definition _arrow (text_ : string) (length_ : nat) (isForward_ : bool) : string :=
  let length_ := Nat.max length_ (String.length text_ + 8) in
  let nb := ((length_ - String.length text_ - 2) / 2)%nat in
  let h := dashes_between nb in
  let extra := if (String.length text_ mod 2 =? 1)%nat then "-" else "" in
  if isForward_
  then extra +:+ h +:+ " " +:+ text_ +:+ " " +:+ h +:+ "> "
  else "<" +:+ h +:+ " " +:+ text_ +:+ " " +:+ h +:+ extra +:+ " ".

(** [_w(str, width)] of reference.js *)
Definition _w (str : string) (width : nat) : string :=
  substring0 width (str +:+ "                                         ").

(** No two reference types share a browse name or an inverse name: an
    entry of either index of reference types is the entry of the other
    index under its other name. *)
Record well_paired (self : AddressSpace) : Prop := {
  paired_forward : forall name_ object,
    stored (_referenceTypeMap self) name_ = Some object ->
    exists inverse,
      inverseName object = Some inverse /\
      stored (_referenceTypeMapInv self) (text inverse) = Some object;
  paired_inverse : forall name_ object,
    stored (_referenceTypeMapInv self) name_ = Some object ->
    stored (_referenceTypeMap self) (browseName object) = Some object
}.

(** No reference type is registered under an inverse name that begins
    with [i=]. *)
Definition inverse_names_plain (self : AddressSpace) : Prop :=
  forall name_,
    is_Some (stored (_referenceTypeMapInv self) name_) ->
    String.eqb (substring0 2 name_) "i=" = false.

(** No reference type is registered under a browse name or an inverse
    name that every object inherits: the two indices of reference types
    hold none of these names, [__proto__] among them, so both still
    have the prototype they were created with. *)
Definition names_own (self : AddressSpace) : Prop :=
  forall name_,
    is_Some (stored (_referenceTypeMap self) name_) \/
    is_Some (stored (_referenceTypeMapInv self) name_) ->
    inherited_member (realm self) name_ = false.

(** No reference type is registered under a browse name that every
    object inherits, nor under the inverse name [__proto__]. *)
Definition browse_names_own (self : AddressSpace) : Prop :=
  (forall name_,
      is_Some (stored (_referenceTypeMap self) name_) ->
      inherited_member (realm self) name_ = false) /\
  stored (_referenceTypeMapInv self) "__proto__" = None.

(** Whether [_register] files the nodes of two classes in the same
    browse-name index: objects and variables share one. *)
Definition shares_index (class class' : NodeClass) : bool :=
  match class, class' with
  | (NodeClass_Object | NodeClass_Variable), (NodeClass_Object | NodeClass_Variable)
  | NodeClass_ObjectType, NodeClass_ObjectType
  | NodeClass_VariableType, NodeClass_VariableType
  | NodeClass_ReferenceType, NodeClass_ReferenceType
  | NodeClass_DataType, NodeClass_DataType => true
  | _, _ => false
  end.

(** ** Further notions of the publish engine *)

(** Every acknowledgement the engine holds or has sent, oldest first:
    those of the requests handed to the session, then the queue. *)
Definition acknowledgements_so_far (rt : Runtime) : list SubscriptionAcknowledgement :=
  (concat (map request_subscriptionAcknowledgements (published rt))
   ++ subscriptionAcknowledgements (engine rt))%list.

(** Whether every operation of the run returns without raising. *)
Fixpoint all_return (ops : list Op) (rt : Runtime) : bool :=
  match ops with
  | [] => true
  | op :: ops' =>
      match perform op rt with
      | (Return _, rt') => all_return ops' rt'
      | (Throw _, _) => false
      end
  end.

Definition is_cleanup (op : Op) : bool :=
  match op with
  | Op_cleanup_acknowledgment_for_subscription _ => true
  | _ => false
  end.

(** The state of the pipeline that every run from a fresh engine
    keeps: the timeout hint is at least the default, the counter of
    pending requests is the number of requests whose answer is awaited,
    and every request handed to the session carries a timeout hint of
    at least the default. *)
Record pipeline_sound (rt : Runtime) : Prop := {
  sound_timeoutHint : 10000 <= timeoutHint (engine rt);
  sound_pending : nbPendingPublishRequests (engine rt) = Z.of_nat (awaiting rt);
  sound_published :
    Forall (fun request => 10000 <= requestHeader_timeoutHint request) (published rt)
}.

(** * Properties *)

(** ** Examples: the scenarios of the specification *)

Example scenario_1 :
  simpleBrowsePath minimal_space_under_test (ofString "/") "Objects"
  = Return (Some (makeNodeId 85)) /\
  simpleBrowsePath minimal_space (ofString "/") "Objects" = Throw TypeError.
Proof. vm_compute. split; reflexivity. Qed.

Example scenario_2 :
  simpleBrowsePath minimal_space (ofString "/") "Missing" = Return None /\
  browsePath minimal_space (constructBrowsePath (ofString "/") "Missing")
  = Return (BrowsePathResult_of Bad_NoMatch).
Proof. vm_compute. split; reflexivity. Qed.

Example scenario_5 :
  normalizeReferenceType minimal_space
    {| referenceType := "OrganizedBy"; isForward := JSbool true |}
  = Return {| referenceType := "Organizes"; isForward := JSbool false |}.
Proof. vm_compute. reflexivity. Qed.

Example constructBrowsePath_namespace :
  map targetName
      (elements (relativePath (constructBrowsePath (ofString "/") "Objects.4:Boilers")))
  = [ Some {| namespaceIndex := Int 0; name := Some "Objects" |};
      Some {| namespaceIndex := Int 4; name := Some "Boilers" |} ].
Proof. vm_compute. reflexivity. Qed.

Example scenario_6 :
  map requestHeader_timeoutHint
      (published (run (Op_registerSubscriptionCallback 1 1000 7%nat
                         :: replicate 5 Op_immediate) (new_Runtime 0%nat)))
  = [10000; 20000; 30000; 40000; 50000].
Proof. vm_compute. reflexivity. Qed.

Example scenario_7 :
  let rt := run (Op_registerSubscriptionCallback 1 1000 7%nat
                   :: replicate 5 Op_immediate
                   ++ [Op_publish_callback (Some (data_change 1 42)); Op_immediate])%list
                (new_Runtime 0%nat) in
  (request_subscriptionAcknowledgements <$> last (published rt))
  = Some [{| ack_subscriptionId := 1; ack_sequenceNumber := 42 |}].
Proof. vm_compute. reflexivity. Qed.

(** ** Completions and loops *)

Lemma bind_Return {A B : Type} (c : Completion A) (f : A -> Completion B) (b : B) :
  c ≫= f = Return b -> exists a, c = Return a /\ f a = Return b.
Proof.
  destruct c as [a | e]; simpl; intros H.
  - exists a. auto.
  - discriminate H.
Qed.

Lemma assert_Return (cond : bool) (u : unit) : assert cond = Return u -> cond = true.
Proof. destruct cond; simpl; [reflexivity | discriminate]. Qed.

(** A property of [res] that every turn of the body keeps holds after
    the loop, when the loop completes. *)
Lemma forEach_preserves {A R : Type} (P : R -> Prop) (body : R -> A -> Completion R)
    (items : list A) :
  (forall res item res', item ∈ items -> P res -> body res item = Return res' -> P res') ->
  forall res res', P res -> forEach body items res = Return res' -> P res'.
Proof.
  induction items as [| item items IH]; intros Hbody res res' HP Hrun; simpl in Hrun.
  - congruence.
  - apply bind_Return in Hrun as (mid & Hmid & Hrest).
    apply (IH (fun r i r' Hin => Hbody r i r' (list_elem_of_further _ _ _ Hin)) mid res').
    + apply (Hbody res item mid); [left | exact HP | exact Hmid].
    + exact Hrest.
Qed.

(** The loop completes when every turn of the body does. *)
Lemma forEach_completes {A R : Type} (body : R -> A -> Completion R) (items : list A) :
  (forall res item, item ∈ items -> exists res', body res item = Return res') ->
  forall res, exists res', forEach body items res = Return res'.
Proof.
  induction items as [| item items IH]; intros Hbody res; simpl.
  - eauto.
  - destruct (Hbody res item) as [mid Hmid]; [left |].
    rewrite Hmid. simpl.
    apply IH. intros r i Hin. apply Hbody. by right.
Qed.

(** ** constructBrowsePath *)

Lemma split_not_nil (sep : ascii) (str : string) : split sep str <> [].
Proof.
  induction str as [| c rest IH]; simpl; [discriminate |].
  destruct (Ascii.eqb c sep); [discriminate |].
  destruct (split sep rest); [contradiction | discriminate].
Qed.

(** The starting node of the result does not depend on the argument. *)
Lemma constructBrowsePath_startingNode (startingNode_ : NodeIdOrString) (path : string) :
  startingNode (constructBrowsePath startingNode_ path) = rootFolderId.
Proof. reflexivity. Qed.

(** One element per segment of the path, each with reference type
    [i=0], forward, without subtypes, and with a target name. *)
Lemma constructBrowsePath_elements (startingNode_ : NodeIdOrString) (path : string) :
  let elements_ := elements (relativePath (constructBrowsePath startingNode_ path)) in
  length elements_ = length (split "." path) /\
  Forall (fun element =>
            referenceTypeId element = makeNodeId 0 /\
            isInverse element = false /\
            includeSubtypes element = false /\
            is_Some (targetName element ≫= name))
         elements_.
Proof.
  simpl. split; [by rewrite length_map |].
  apply Forall_forall. intros element Hin.
  apply list_elem_of_fmap in Hin as (segment & -> & _).
  destruct (split ":" segment) as [| s0 [| s1 [| s2 rest]]]; simpl; eauto.
Qed.

(** A segment without a colon is the target name, in namespace 0. *)
Lemma constructBrowsePath_plain_segment (startingNode_ : NodeIdOrString)
    (path segment : string) (i : nat) :
  split "." path !! i = Some segment ->
  split ":" segment = [segment] ->
  targetName <$> elements (relativePath (constructBrowsePath startingNode_ path)) !! i
  = Some (Some {| namespaceIndex := Int 0; name := Some segment |}).
Proof.
  intros Hseg Hplain. simpl. rewrite list_lookup_fmap, Hseg. simpl.
  by rewrite Hplain.
Qed.

(** A segment [N:name] has the target name [name] in the namespace
    that [parseInt] reads from [N]. *)
Lemma constructBrowsePath_prefixed_segment (startingNode_ : NodeIdOrString)
    (path segment index_ name_ : string) (i : nat) :
  split "." path !! i = Some segment ->
  split ":" segment = [index_; name_] ->
  targetName <$> elements (relativePath (constructBrowsePath startingNode_ path)) !! i
  = Some (Some {| namespaceIndex := parseInt index_; name := Some name_ |}).
Proof.
  intros Hseg Hsplit. simpl. rewrite list_lookup_fmap, Hseg. simpl.
  by rewrite Hsplit.
Qed.

(** C1: the claim holds that the browse path starts at the node given.
    At the starting node [i=85] and the path [Server] the code answers
    a browse path that starts at RootFolder, [i=84]. *)
Theorem constructBrowsePath_drops_startingNode :
  startingNode (constructBrowsePath (ofNodeId (makeNodeId 85)) "Server")
  = makeNodeId 84 /\
  makeNodeId 84 <> makeNodeId 85.
Proof. split; [reflexivity | discriminate]. Qed.

(** ** browsePath *)

Lemma findObject_NodeId (self : AddressSpace) (id : NodeId) :
  findObject self (ofNodeId id) = Return (_nodeid_index self !! NodeId_toString id).
Proof. reflexivity. Qed.

Section browsePath_checks.
Variable self : AddressSpace.
Variable path : BrowsePath.

Let start := _nodeid_index self !! NodeId_toString (startingNode path).
Let elements_ := elements (relativePath path).

(** First check: the starting node. *)
Lemma browsePath_Bad_NodeIdUnknown :
  start = None ->
  browsePath self path = Return (BrowsePathResult_of Bad_NodeIdUnknown).
Proof.
  unfold start, browsePath. rewrite findObject_NodeId. simpl.
  by intros ->.
Qed.

(** Second check: an empty path. *)
Lemma browsePath_Bad_NothingToDo :
  is_Some start -> elements_ = [] ->
  browsePath self path = Return (BrowsePathResult_of Bad_NothingToDo).
Proof.
  unfold start, elements_, browsePath. rewrite findObject_NodeId. simpl.
  intros [node ->] ->. reflexivity.
Qed.

(** Third check: the target name of the last element. *)
Lemma browsePath_Bad_BrowseNameInvalid (last_el : RelativePathElement) :
  is_Some start -> last elements_ = Some last_el ->
  targetName_missing last_el = true ->
  browsePath self path = Return (BrowsePathResult_of Bad_BrowseNameInvalid).
Proof.
  unfold start, elements_, browsePath. rewrite findObject_NodeId. simpl.
  intros [node ->] Hlast Hmissing.
  rewrite last_lookup in Hlast.
  destruct (elements (relativePath path)) as [| e es] eqn:Hel; [discriminate |].
  cbn [length Nat.eqb].
  replace (S (length es) - 1)%nat with (Init.Nat.pred (length (e :: es)))
    by (simpl; lia).
  rewrite Hlast, Hmissing. reflexivity.
Qed.

(** After the three checks the traversal decides: when it completes,
    [Bad_NoMatch] for no target and [Good] with the targets
    otherwise; when it raises, so does [browsePath]. *)
Lemma browsePath_traversal (last_el : RelativePathElement) :
  is_Some start -> last elements_ = Some last_el ->
  targetName_missing last_el = false ->
  browsePath self path =
  match explore_element self start elements_ 0 [] with
  | Return [] => Return (BrowsePathResult_of Bad_NoMatch)
  | Return res => Return {| statusCode := Good; targets := res |}
  | Throw e => Throw e
  end.
Proof.
  unfold start, elements_, browsePath. rewrite findObject_NodeId. simpl.
  intros [node ->] Hlast Hmissing.
  rewrite last_lookup in Hlast.
  destruct (elements (relativePath path)) as [| e es] eqn:Hel; [discriminate |].
  cbn [length Nat.eqb].
  replace (S (length es) - 1)%nat with (Init.Nat.pred (length (e :: es)))
    by (simpl; lia).
  rewrite Hlast, Hmissing.
  destruct (explore_element self (Some node) (e :: es) 0 []) as [[| t ts] | err];
    reflexivity.
Qed.
End browsePath_checks.

Section traversal.
Variable self : AddressSpace.

(** The traversal only ever pushes sentinel targets. *)
Lemma explore_from_sentinel (rest elements_ : list RelativePathElement) :
  forall (index : nat) (cur : option BaseNode) (res res' : list BrowsePathTarget),
    Forall is_sentinel res ->
    explore_from self rest elements_ index cur res = Return res' ->
    Forall is_sentinel res'.
Proof.
  induction rest as [| element rest' IH]; intros index cur res res' Hres Hrun;
    simpl in Hrun; [discriminate |].
  destruct cur as [cur |]; [| discriminate].
  destruct (negb (index + 1 =? length elements_)%nat).
  - revert Hrun. apply forEach_preserves; [| exact Hres].
    intros acc target acc' _ Hacc Hbody.
    exact (IH _ _ _ _ Hacc Hbody).
  - revert Hrun. apply forEach_preserves; [| exact Hres].
    intros acc target acc' _ Hacc [= <-].
    apply Forall_app. split; [exact Hacc |].
    by apply Forall_singleton.
Qed.

(** Without dangling references the traversal completes. *)
Lemma explore_from_closed (rest elements_ : list RelativePathElement) :
  closed self ->
  forall (index : nat) (key : string) (cur : BaseNode) (res : list BrowsePathTarget),
    rest <> [] ->
    (index + length rest = length elements_)%nat ->
    _nodeid_index self !! key = Some cur ->
    exists res', explore_from self rest elements_ index (Some cur) res = Return res'.
Proof.
  intros Hclosed.
  induction rest as [| element rest' IH]; intros index key cur res Hne Hlen Hcur;
    [contradiction |].
  simpl in *.
  destruct (index + 1 =? length elements_)%nat eqn:Hlast; simpl.
  - apply forEach_completes. eauto.
  - apply Nat.eqb_neq in Hlast.
    apply forEach_completes. intros acc target Hin.
    apply list_elem_of_fmap in Hin as (id & -> & Hid). simpl.
    destruct (Hclosed key cur element id Hcur Hid) as [node Hnode].
    rewrite Hnode.
    apply (IH _ (NodeId_toString id)); [| lia | exact Hnode].
    destruct rest'; [simpl in Hlen; lia | discriminate].
Qed.

End traversal.

(** In an address space without dangling references [browsePath]
    always returns a result, and its status follows the order of the
    checks. *)
Lemma browsePath_closed_returns (self : AddressSpace) (path : BrowsePath) :
  closed self ->
  exists result, browsePath self path = Return result.
Proof.
  intros Hclosed.
  destruct (_nodeid_index self !! NodeId_toString (startingNode path))
    as [node |] eqn:Hstart.
  2: { rewrite browsePath_Bad_NodeIdUnknown; eauto. }
  destruct (last (elements (relativePath path))) as [last_el |] eqn:Hlast.
  2: { apply last_None in Hlast.
       rewrite browsePath_Bad_NothingToDo; eauto; by rewrite Hstart. }
  destruct (targetName_missing last_el) eqn:Hmissing.
  { erewrite browsePath_Bad_BrowseNameInvalid; eauto; by rewrite Hstart. }
  erewrite browsePath_traversal; eauto; try (by rewrite Hstart).
  rewrite Hstart. unfold explore_element. rewrite drop_0.
  destruct (explore_from_closed self (elements (relativePath path))
              (elements (relativePath path)) Hclosed 0
              (NodeId_toString (startingNode path)) node []) as [res ->].
  - intros Hnil. rewrite Hnil in Hlast. discriminate.
  - reflexivity.
  - exact Hstart.
  - destruct res; eauto.
Qed.

Lemma flat_map_singleton {A B : Type} (f : A -> B) (l : list A) :
  flat_map (fun a => [f a]) l = map f l.
Proof. induction l as [| a l IH]; simpl; congruence. Qed.

(** A loop whose body appends to [res] appends the pieces in order. *)
Lemma forEach_appends {A B C : Type} (body : list C -> B -> Completion (list C))
    (make : A -> B) (piece : A -> list C) (items : list A) :
  (forall res item, item ∈ items -> body res (make item) = Return (res ++ piece item)%list) ->
  forall res,
    forEach body (map make items) res = Return (res ++ flat_map piece items)%list.
Proof.
  induction items as [| item items IH]; intros Hbody res; simpl.
  - by rewrite app_nil_r.
  - rewrite Hbody by left. simpl.
    rewrite IH by (intros r i Hin; apply Hbody; by right).
    by rewrite app_assoc.
Qed.

Lemma map_flat_map {A B C : Type} (f : B -> C) (g : A -> list B) (l : list A) :
  map f (flat_map g l) = flat_map (fun a => map f (g a)) l.
Proof.
  induction l as [| a l IH]; simpl; [reflexivity |].
  by rewrite map_app, IH.
Qed.

(** Without dangling references the closure pushes the targets of the
    depth-first walk, in its order. *)
Lemma explore_from_descend (self : AddressSpace) (rest elements_ : list RelativePathElement) :
  closed self ->
  forall (index : nat) (key : string) (cur : BaseNode) (res : list BrowsePathTarget),
    rest <> [] ->
    (index + length rest = length elements_)%nat ->
    _nodeid_index self !! key = Some cur ->
    explore_from self rest elements_ index (Some cur) res
    = Return (res ++ map sentinel_target (descend self rest cur))%list.
Proof.
  intros Hclosed.
  induction rest as [| element rest' IH]; intros index key cur res Hne Hlen Hcur;
    [contradiction |].
  destruct rest' as [| next rest''].
  - simpl in Hlen. simpl.
    assert ((index + 1 =? length elements_)%nat = true) as ->
      by (apply Nat.eqb_eq; lia).
    simpl.
    rewrite (forEach_appends _ _ (fun id => [sentinel_target id]))
      by reflexivity.
    by rewrite flat_map_singleton.
  - cbn [explore_from descend].
    assert ((index + 1 =? length elements_)%nat = false) as ->
      by (apply Nat.eqb_neq; simpl in Hlen; lia).
    cbn [negb].
    rewrite (forEach_appends _ _
               (fun id => match _nodeid_index self !! NodeId_toString id with
                          | Some child =>
                              map sentinel_target (descend self (next :: rest'') child)
                          | None => []
                          end)).
    + rewrite map_flat_map. do 2 f_equal.
      apply flat_map_ext. intros id.
      by destruct (_nodeid_index self !! NodeId_toString id).
    + intros acc id Hid. simpl.
      destruct (Hclosed key cur element id Hcur Hid) as [child Hchild].
      rewrite Hchild.
      apply (IH _ (NodeId_toString id)); [discriminate | simpl in *; lia | exact Hchild].
Qed.

(** Nodes that match their children by the children's own browse
    names hand out registered ids only. *)
Lemma matches_children_closed (self : AddressSpace) :
  matches_children self -> closed self.
Proof.
  intros Hmatch key node element id Hnode Hid.
  destruct (Hmatch key node element id Hnode Hid) as [_ (child & Hchild & _)].
  eauto.
Qed.

(** What a [linked_node] hands out: targets of its references that the
    table of loaded nodes lists under the name asked for. *)
Lemma linked_node_children (id : N) (browseName_ : string) (targets_ : list NodeId)
    (loaded : list (NodeId * string)) (element : RelativePathElement) (child : NodeId) :
  child ∈ browseNodeByTargetName (linked_node id browseName_ targets_ loaded) element ->
  (exists reference,
      reference ∈ references (linked_node id browseName_ targets_ loaded) /\
      ref_nodeId reference = child) /\
  exists wanted,
    targetName element ≫= name = Some wanted /\ (child, wanted) ∈ loaded.
Proof.
  simpl.
  destruct (targetName element) as [[ns [wanted |]] |];
    try (intros Hin; by apply elem_of_nil in Hin).
  intros [Hin Hloaded]%list_elem_of_In%filter_In.
  apply list_elem_of_In in Hin. apply bool_decide_eq_true in Hloaded.
  split; [| by exists wanted].
  exists {| ref_referenceType := "Organizes"; ref_nodeId := child;
            ref_isForward := JSbool true |}.
  split; [| reflexivity].
  apply list_elem_of_fmap. exists child. split; [reflexivity | exact Hin].
Qed.

Lemma partly_loaded_space_matches : matches_children partly_loaded_space.
Proof.
  assert (_nodeid_index partly_loaded_space
          = <["i=35" := Organizes]>
              (<["i=84" := linked_node 84 "Root" [makeNodeId 85; makeNodeId 999]
                             partly_loaded]>
                 (<["i=85" := linked_node 85 "Objects" [makeNodeId 2253] partly_loaded]>
                    (<["i=2253" := linked_node 2253 "Server" [] partly_loaded]> ∅))))
    as Hindex by (vm_compute; reflexivity).
  intros key node element id Hnode Hid. rewrite Hindex in Hnode.
  repeat (apply lookup_insert_Some in Hnode as [[_ <-] | [_ Hnode]]);
    try (by rewrite lookup_empty in Hnode);
    try (by apply elem_of_nil in Hid);
    apply linked_node_children in Hid as [Hreference (wanted & -> & Hloaded)];
    (split; [exact Hreference |]);
    unfold partly_loaded in Hloaded;
    repeat (apply elem_of_cons in Hloaded as [[= -> ->] | Hloaded]);
    try (by apply elem_of_nil in Hloaded);
    eexists; (split; [vm_compute; reflexivity | reflexivity]).
Qed.


(** C2: in an address space whose nodes hand out registered children
    only, as nodes that match their children by the children's own
    browse names do, every browse path is answered with a result, and
    the result is the described one: [Bad_NodeIdUnknown] when the
    starting node is not registered, otherwise [Bad_NothingToDo] for an
    empty path, otherwise [Bad_BrowseNameInvalid] when the last element
    has no target name, otherwise [Bad_NoMatch] when the walk produces
    no target, otherwise [Good] with all the targets produced. *)
Theorem browsePath_follows_checks (self : AddressSpace) (path : BrowsePath) :
  closed self ->
  browsePath self path = Return (browsePath_described self path).
Proof.
  intros Hclosed. unfold browsePath_described.
  destruct (_nodeid_index self !! NodeId_toString (startingNode path))
    as [node |] eqn:Hstart.
  2: { by apply browsePath_Bad_NodeIdUnknown. }
  cbv zeta.
  destruct (last (elements (relativePath path))) as [last_el |] eqn:Hlast.
  2: { apply last_None in Hlast.
       apply browsePath_Bad_NothingToDo; [by rewrite Hstart | exact Hlast]. }
  destruct (targetName_missing last_el) eqn:Hmissing.
  { apply (browsePath_Bad_BrowseNameInvalid self path last_el);
      [by rewrite Hstart | exact Hlast | exact Hmissing]. }
  rewrite (browsePath_traversal self path last_el); [| by rewrite Hstart | done..].
  rewrite Hstart. unfold explore_element. rewrite drop_0.
  rewrite (explore_from_descend self _ _ Hclosed 0
             (NodeId_toString (startingNode path)) node []); cycle 1.
  - intros Hnil. rewrite Hnil in Hlast. discriminate.
  - reflexivity.
  - exact Hstart.
  - simpl. by destruct (descend self (elements (relativePath path)) node).
Qed.

Lemma browsePath_follows_checks_witness :
  closed partly_loaded_space /\
  browsePath partly_loaded_space (constructBrowsePath (ofString "/") "Objects.Server")
  = Return (browsePath_described partly_loaded_space
              (constructBrowsePath (ofString "/") "Objects.Server")) /\
  browsePath_described partly_loaded_space
    (constructBrowsePath (ofString "/") "Objects.Server")
  = {| statusCode := Good; targets := [sentinel_target (makeNodeId 2253)] |}.
Proof.
  split; [exact (matches_children_closed _ partly_loaded_space_matches) |].
  split; [| vm_compute; reflexivity].
  apply (browsePath_follows_checks partly_loaded_space
           (constructBrowsePath (ofString "/") "Objects.Server")
           (matches_children_closed _ partly_loaded_space_matches)).
Defined.



(** C4: when [browsePath] answers [Good], every target of the result
    carries the sentinel [0xFFFFFFFF] as its remaining path index. *)
Theorem browsePath_Good_sentinel (self : AddressSpace) (path : BrowsePath)
    (result : BrowsePathResult) :
  browsePath self path = Return result ->
  statusCode result = Good ->
  Forall (fun target => remainingPathIndex target = 0xFFFFFFFF) (targets result).
Proof.
  unfold browsePath. rewrite findObject_NodeId. simpl.
  destruct (_nodeid_index self !! NodeId_toString (startingNode path)) as [node |];
    [| by intros [= <-]].
  destruct (length (elements (relativePath path)) =? 0)%nat; [by intros [= <-] |].
  destruct (elements (relativePath path) !! _) as [last_el |]; [| discriminate].
  destruct (targetName_missing last_el); [by intros [= <-] |].
  intros Hrun _.
  apply bind_Return in Hrun as (res & Hres & Hrun).
  assert (Forall is_sentinel res) as Hsentinel.
  { unfold explore_element in Hres.
    eapply explore_from_sentinel; [| exact Hres]. constructor. }
  destruct (length res =? 0)%nat; injection Hrun as <-; simpl.
  - constructor.
  - exact Hsentinel.
Qed.

Lemma browsePath_Good_sentinel_witness :
  browsePath minimal_space (constructBrowsePath (ofString "/") "Objects.Server")
  = Return {| statusCode := Good;
              targets := [{| targetId := makeNodeId 2253;
                             remainingPathIndex := 0xFFFFFFFF |}] |} /\
  Forall (fun target => remainingPathIndex target = 0xFFFFFFFF)
         [{| targetId := makeNodeId 2253; remainingPathIndex := 0xFFFFFFFF |}].
Proof.
  split; [vm_compute; reflexivity |].
  apply (browsePath_Good_sentinel minimal_space
           (constructBrowsePath (ofString "/") "Objects.Server")
           {| statusCode := Good;
              targets := [{| targetId := makeNodeId 2253;
                             remainingPathIndex := 0xFFFFFFFF |}] |});
    [vm_compute; reflexivity | reflexivity].
Defined.

(** ** Dictionaries *)

Lemma stored_empty_object {V : Type} (key : string) :
  stored (@empty_object V) key = None.
Proof.
  unfold stored. simpl.
  destruct (String.eqb key "__proto__"); [reflexivity | apply lookup_empty].
Qed.

(** A write is read back under its key and leaves every other key as
    it was, [__proto__] included. *)
Lemma stored_JS_set {V : Type} (dictionary : Dictionary V) (key key' : string)
    (value : V) :
  stored (JS_set dictionary key value) key'
  = if decide (key = key') then Some value else stored dictionary key'.
Proof.
  unfold stored, JS_set.
  destruct (decide (key = key')) as [<- | Hne].
  - destruct (String.eqb key "__proto__"); simpl;
      [reflexivity | apply lookup_insert_eq].
  - destruct (String.eqb_spec key "__proto__") as [-> | Hkey],
             (String.eqb_spec key' "__proto__") as [-> | Hkey']; simpl;
      try congruence; try reflexivity.
    by apply lookup_insert_ne.
Qed.

Lemma stored_JS_set_Some {V : Type} (dictionary : Dictionary V) (key key' : string)
    (value found : V) :
  stored (JS_set dictionary key value) key' = Some found <->
  (key = key' /\ value = found) \/ (key <> key' /\ stored dictionary key' = Some found).
Proof.
  rewrite stored_JS_set. case_decide as Heq; split.
  - intros [= <-]. by left.
  - intros [[_ <-] | [Hne _]]; [reflexivity | contradiction].
  - intros Hold. by right.
  - intros [[Hkey _] | [_ Hold]]; [contradiction | exact Hold].
Qed.

Lemma stored_JS_set_eq {V : Type} (dictionary : Dictionary V) (key : string) (value : V) :
  stored (JS_set dictionary key value) key = Some value.
Proof. rewrite stored_JS_set. by rewrite decide_True. Qed.

(** The prototype is the one of creation as long as nothing is stored
    under [__proto__]. *)
Lemma stored_proto_None {V : Type} (dictionary : Dictionary V) :
  stored dictionary "__proto__" = None <-> prototype_of dictionary = Object_prototype.
Proof. unfold stored. simpl. destruct (prototype_of dictionary); naive_solver. Qed.

Lemma JS_get_Value {V : Type} (realm_ : list string) (dictionary : Dictionary V)
    (key : string) (found : V) :
  JS_get realm_ dictionary key = Value found <-> stored dictionary key = Some found.
Proof.
  unfold JS_get. destruct (stored dictionary key); [naive_solver |].
  destruct (prototype_of dictionary); [| naive_solver].
  destruct (inherited_member realm_ key); naive_solver.
Qed.

(** A read that yields no stored value finds nothing stored. *)
Lemma JS_get_not_Value {V : Type} (realm_ : list string) (dictionary : Dictionary V)
    (key : string) (property : Property V) :
  JS_get realm_ dictionary key = property ->
  (forall found, property <> Value found) ->
  stored dictionary key = None.
Proof.
  intros Hget Hproperty.
  destruct (stored dictionary key) as [found |] eqn:Hfound; [| reflexivity].
  apply (JS_get_Value realm_) in Hfound.
  exfalso. apply (Hproperty found). congruence.
Qed.

Lemma JS_get_JS_set_eq {V : Type} (realm_ : list string) (dictionary : Dictionary V)
    (key : string) (value : V) :
  JS_get realm_ (JS_set dictionary key value) key = Value value.
Proof. apply JS_get_Value, stored_JS_set_eq. Qed.

(** A write under a name other than [__proto__] changes the read of no
    other name. *)
Lemma JS_get_JS_set_ne {V : Type} (realm_ : list string) (dictionary : Dictionary V)
    (key key' : string) (value : V) :
  key <> "__proto__" -> key <> key' ->
  JS_get realm_ (JS_set dictionary key value) key' = JS_get realm_ dictionary key'.
Proof.
  intros Hproto Hne. unfold JS_get.
  rewrite stored_JS_set, decide_False by exact Hne.
  unfold JS_set. apply String.eqb_neq in Hproto. by rewrite Hproto.
Qed.

(** A write under [__proto__] makes the value the prototype: a name
    with nothing stored under it reads the member of the value. *)
Lemma JS_get_JS_set_proto {V : Type} (realm_ : list string) (dictionary : Dictionary V)
    (key' : string) (value : V) :
  key' <> "__proto__" -> stored dictionary key' = None ->
  JS_get realm_ (JS_set dictionary "__proto__" value) key' = Via value key'.
Proof.
  intros Hne Hnone. unfold JS_get.
  rewrite stored_JS_set, decide_False by congruence.
  by rewrite Hnone.
Qed.

Lemma JS_get_missing {V : Type} (realm_ : list string) (dictionary : Dictionary V)
    (key : string) :
  stored dictionary key = None ->
  stored dictionary "__proto__" = None ->
  JS_get realm_ dictionary key
  = if inherited_member realm_ key then Inherited key else Undefined.
Proof.
  intros Hkey Hproto%stored_proto_None. unfold JS_get. by rewrite Hkey, Hproto.
Qed.

(** ** Registration *)

Lemma registered_register_all (nodes : list BaseNode) :
  forall self, registered self -> registered (register_all nodes self).
Proof.
  induction nodes as [| object nodes IH]; intros self Hself; simpl.
  - exact Hself.
  - apply IH. by constructor.
Qed.

(** Case analysis on the branches of [_register]. *)
Ltac register_cases self object :=
  unfold _register;
  destruct (_nodeid_index self !! NodeId_toString (nodeId object));
  [| destruct (nodeClass object) eqn:?;
     [| | | | | destruct (inverseName object) as [[?] |] eqn:?;
               [destruct (String.eqb _ "") eqn:? |] | |]];
  simpl.

(** Registration leaves the program as it is. *)
Lemma register_realm (self : AddressSpace) (object : BaseNode) :
  realm (snd (_register self object)) = realm self.
Proof. register_cases self object; reflexivity. Qed.

(** An entry of the browse-name index of reference types is a
    reference type filed under its browse name. *)
Lemma registered_forward_entry (self : AddressSpace) :
  registered self ->
  forall name_ object,
    stored (_referenceTypeMap self) name_ = Some object ->
    nodeClass object = NodeClass_ReferenceType /\ browseName object = name_.
Proof.
  induction 1 as [realm_ | self alias_name id _ IH | self object _ IH];
    intros name_ found; simpl.
  - by rewrite stored_empty_object.
  - apply IH.
  - register_cases self object; try apply IH.
    intros [[<- <-] | [_ Hold]]%stored_JS_set_Some; [done | by apply IH].
Qed.

(** The browse name of an entry of the inverse-name index is a key of
    the browse-name index. *)
Lemma registered_inverse_entry (self : AddressSpace) :
  registered self ->
  forall name_ object,
    stored (_referenceTypeMapInv self) name_ = Some object ->
    is_Some (stored (_referenceTypeMap self) (browseName object)).
Proof.
  induction 1 as [realm_ | self alias_name id _ IH | self object _ IH];
    intros name_ found; simpl.
  - by rewrite stored_empty_object.
  - apply IH.
  - register_cases self object; try apply IH.
    intros [[_ <-] | [_ Hold]]%stored_JS_set_Some.
    + rewrite stored_JS_set_eq. eauto.
    + rewrite stored_JS_set. case_decide; eauto.
Qed.

(** ** findReferenceType *)

(** A name that does not begin with [i=] and has an entry in the
    browse-name index yields that entry. *)
Lemma findReferenceType_stored (self : AddressSpace) (refType : string)
    (found : BaseNode) :
  registered self ->
  String.eqb (substring0 2 refType) "i=" = false ->
  stored (_referenceTypeMap self) refType = Some found ->
  findReferenceType self refType = Return (Some found).
Proof.
  intros Hself Hplain Hfound. unfold findReferenceType. rewrite Hplain.
  rewrite (proj2 (JS_get_Value _ _ _ _) Hfound).
  destruct (registered_forward_entry self Hself _ _ Hfound) as [Hclass Hname].
  unfold is_ReferenceType. rewrite bool_decide_eq_true_2 by exact Hclass.
  rewrite Hname, String.eqb_refl. reflexivity.
Qed.

(** A name that does not begin with [i=] and has no entry is absent,
    or refused when every object inherits it. *)
Lemma findReferenceType_missing (self : AddressSpace) (refType : string) :
  String.eqb (substring0 2 refType) "i=" = false ->
  stored (_referenceTypeMap self) refType = None ->
  stored (_referenceTypeMap self) "__proto__" = None ->
  findReferenceType self refType
  = if inherited_member (realm self) refType then Throw AssertionError
    else Return None.
Proof.
  intros Hplain Hnone Hproto. unfold findReferenceType. rewrite Hplain.
  rewrite JS_get_missing by assumption.
  by destruct (inherited_member (realm self) refType).
Qed.

(** What [findReferenceType] returns for a name that does not begin
    with [i=] is the entry of the browse-name index. *)
Lemma findReferenceType_Return (self : AddressSpace) (refType : string)
    (result : option BaseNode) :
  String.eqb (substring0 2 refType) "i=" = false ->
  findReferenceType self refType = Return result ->
  stored (_referenceTypeMap self) refType = result.
Proof.
  intros Hplain. unfold findReferenceType. rewrite Hplain.
  destruct (JS_get _ _ _) as [entry | key | holder key |] eqn:Hget;
    try discriminate.
  - intros Hrun. apply bind_Return in Hrun as (_ & _ & [= <-]).
    by apply JS_get_Value in Hget.
  - destruct (truthy_member holder key); [discriminate |].
    intros [= <-]. by apply (JS_get_not_Value _ _ _ _ Hget).
  - intros [= <-]. by apply (JS_get_not_Value _ _ _ _ Hget).
Qed.

Lemma isNodeIdString_false (str : string) :
  isNodeIdString str = false -> String.eqb (substring0 2 str) "i=" = false.
Proof. unfold isNodeIdString. by intros [? _]%orb_false_iff. Qed.

(** C5, as amended: in an address space built by registration, without
    a reference type of the browse name [__proto__], a name that begins
    with [i=] is resolved as a node id and the node registered under
    that id is returned, the call failing its assertion when there is
    no such node or when it is not a reference type; a name that begins
    with neither [i=] nor [ns=] yields the entry of the browse-name
    index of reference types; without an entry the answer is absent,
    except for the names that every object inherits ([constructor],
    [toString] and the like), on which the call fails its assertion. *)
Theorem findReferenceType_refines (self : AddressSpace) (refType : string) :
  registered self ->
  stored (_referenceTypeMap self) "__proto__" = None ->
  String.eqb (substring0 2 refType) "i=" = true \/ isNodeIdString refType = false ->
  findReferenceType self refType = findReferenceType_described self refType.
Proof.
  intros Hself Hproto [Hid | Hplain%isNodeIdString_false].
  - unfold findReferenceType, findReferenceType_described. rewrite Hid.
    destruct (resolveNodeId (ofString refType)) as [id | e]; [| reflexivity].
    simpl.
    destruct (_nodeid_index self !! NodeId_toString id) as [found |]; [| reflexivity].
    by destruct (is_ReferenceType found).
  - unfold findReferenceType_described, entry_of. rewrite Hplain.
    destruct (stored (_referenceTypeMap self) refType) as [found |] eqn:Hfound.
    + by apply findReferenceType_stored.
    + by apply findReferenceType_missing.
Qed.

Lemma minimal_space_registered : registered minimal_space.
Proof. apply registered_register_all. repeat constructor. Qed.

Lemma findReferenceType_refines_witness :
  findReferenceType minimal_space "i=35" = Return (Some Organizes) /\
  findReferenceType minimal_space "i=85" = Throw AssertionError /\
  findReferenceType minimal_space "Organizes" = Return (Some Organizes) /\
  findReferenceType minimal_space "OrganizedBy" = Return None /\
  findReferenceType minimal_space "toString" = Throw AssertionError.
Proof.
  split; [| split; [| split; [| split]]].
  - rewrite (findReferenceType_refines minimal_space "i=35" minimal_space_registered);
      [vm_compute; reflexivity | vm_compute; reflexivity | left; reflexivity].
  - rewrite (findReferenceType_refines minimal_space "i=85" minimal_space_registered);
      [vm_compute; reflexivity | vm_compute; reflexivity | left; reflexivity].
  - rewrite (findReferenceType_refines minimal_space "Organizes" minimal_space_registered);
      [vm_compute; reflexivity | vm_compute; reflexivity | right; reflexivity].
  - rewrite (findReferenceType_refines minimal_space "OrganizedBy" minimal_space_registered);
      [vm_compute; reflexivity | vm_compute; reflexivity | right; reflexivity].
  - rewrite (findReferenceType_refines minimal_space "toString" minimal_space_registered);
      [vm_compute; reflexivity | vm_compute; reflexivity | right; reflexivity].
Defined.

(** C5, the claim as stated fails: the name [i=9004] is unknown to the
    empty address space, and the call fails its assertion, where the
    claim has it return absent; so does the call on the unknown name
    [constructor], which every object inherits. *)
Lemma findReferenceType_unknown_id_raises :
  findObject new_AddressSpace (ofNodeId (makeNodeId 9004)) = Return None /\
  findReferenceType new_AddressSpace "i=9004" = Throw AssertionError /\
  findReferenceType new_AddressSpace "i=9004" <> Return None /\
  stored (_referenceTypeMap new_AddressSpace) "constructor" = None /\
  findReferenceType new_AddressSpace "constructor" = Throw AssertionError.
Proof.
  vm_compute. split; [| split; [| split; [| split]]];
    [reflexivity | reflexivity | discriminate | reflexivity | reflexivity].
Qed.

(** A name that begins with [ns=] is not resolved as a node id: it is
    looked up as a browse name, and the reference type registered under
    that id is not found. *)
Lemma findReferenceType_namespaced_id :
  resolveNodeId (ofString "ns=1;i=5") = Return (nodeId Feeds) /\
  findObject namespaced_space (ofNodeId (nodeId Feeds)) = Return (Some Feeds) /\
  isNodeIdString "ns=1;i=5" = true /\
  findReferenceType namespaced_space "ns=1;i=5" = Return None.
Proof. vm_compute. split; [| split; [| split]]; reflexivity. Qed.

(** ** normalizeReferenceType *)

(** What [findReferenceTypeFromInverseName] returns is the entry of the
    inverse-name index. *)
Lemma findReferenceTypeFromInverseName_Return (self : AddressSpace)
    (inverseName_ : string) (result : option BaseNode) :
  findReferenceTypeFromInverseName self inverseName_ = Return result ->
  stored (_referenceTypeMapInv self) inverseName_ = result.
Proof.
  unfold findReferenceTypeFromInverseName.
  destruct (JS_get _ _ _) as [entry | key | holder key |] eqn:Hget;
    try discriminate.
  - destruct (is_ReferenceType entry); [| discriminate].
    destruct (inverseName entry) as [inverse |]; [| discriminate].
    destruct (String.eqb (text inverse) inverseName_); simpl; [| discriminate].
    intros [= <-]. by apply JS_get_Value in Hget.
  - destruct (truthy_member holder key); [discriminate |].
    intros [= <-]. by apply (JS_get_not_Value _ _ _ _ Hget).
  - intros [= <-]. by apply (JS_get_not_Value _ _ _ _ Hget).
Qed.

(** A name without an entry in the inverse-name index is absent, or
    refused when every object inherits it. *)
Lemma findReferenceTypeFromInverseName_missing (self : AddressSpace)
    (inverseName_ : string) :
  stored (_referenceTypeMapInv self) inverseName_ = None ->
  stored (_referenceTypeMapInv self) "__proto__" = None ->
  findReferenceTypeFromInverseName self inverseName_
  = if inherited_member (realm self) inverseName_ then Throw AssertionError
    else Return None.
Proof.
  intros Hnone Hproto. unfold findReferenceTypeFromInverseName.
  rewrite JS_get_missing by assumption.
  by destruct (inherited_member (realm self) inverseName_).
Qed.

(** Parameters whose [isForward] is not [null] and whose reference type
    is a forward name only, or no name at all, are returned as they
    are. *)
Lemma normalizeReferenceType_fixed (self : AddressSpace) (params : ReferenceParams)
    (n1 : option BaseNode) :
  isForward params <> JSnull ->
  findReferenceType self (referenceType params) = Return n1 ->
  findReferenceTypeFromInverseName self (referenceType params) = Return None ->
  normalizeReferenceType self params = Return params.
Proof.
  intros Hflag Hn1 Hn2. unfold normalizeReferenceType. simpl.
  rewrite Hn1, Hn2. simpl.
  destruct params as [type flag]. simpl in *.
  destruct flag; [contradiction | ..]; by destruct n1.
Qed.

Section normalize.
Variable self : AddressSpace.
Hypothesis Hregistered : registered self.
Hypothesis Hdisjoint : names_disjoint self.
Hypothesis Hplain : browse_names_plain self.
Hypothesis Hown : browse_names_own self.

(** What [normalizeReferenceType] returns, it returns again for. *)
Lemma normalizeReferenceType_stable (params normal : ReferenceParams) :
  normalizeReferenceType self params = Return normal ->
  normalizeReferenceType self normal = Return normal.
Proof.
  unfold normalizeReferenceType at 1. simpl.
  destruct (findReferenceType self (referenceType params)) as [n1 | e] eqn:Hn1;
    [| discriminate].
  destruct (findReferenceTypeFromInverseName self (referenceType params))
    as [n2 | e] eqn:Hn2; [| discriminate].
  simpl.
  destruct n1 as [forward |], n2 as [backward |]; simpl; try discriminate.
  - intros [= <-].
    eapply normalizeReferenceType_fixed; simpl;
      [by destruct (isForward params) | exact Hn1 | exact Hn2].
  - intros [= <-].
    apply findReferenceTypeFromInverseName_Return in Hn2.
    destruct (registered_inverse_entry self Hregistered _ _ Hn2)
      as [forward Hforward].
    destruct Hown as [Hinherited Hproto].
    eapply normalizeReferenceType_fixed; simpl.
    + discriminate.
    + apply findReferenceType_stored; [exact Hregistered | | exact Hforward].
      apply Hplain. eauto.
    + rewrite findReferenceTypeFromInverseName_missing;
        [| apply Hdisjoint; eauto | exact Hproto].
      rewrite Hinherited by eauto. reflexivity.
  - intros [= <-].
    eapply normalizeReferenceType_fixed; simpl;
      [by destruct (isForward params) | exact Hn1 | exact Hn2].
Qed.
End normalize.

(** C6, as amended: in an address space built by registration in which
    no browse name of a reference type is also an inverse name, none
    begins with [i=], none is a name that every object inherits, and
    no inverse name is [__proto__], normalising the result of
    [normalizeReferenceType] gives that result again, and a call that
    raises raises in both. *)
Theorem normalizeReferenceType_idempotent (self : AddressSpace)
    (params : ReferenceParams) :
  registered self ->
  names_disjoint self ->
  browse_names_plain self ->
  browse_names_own self ->
  normalizeReferenceType self params ≫= normalizeReferenceType self
  = normalizeReferenceType self params.
Proof.
  intros Hregistered Hdisjoint Hplain Hown.
  destruct (normalizeReferenceType self params) as [normal | e] eqn:Hnormal;
    [| reflexivity].
  simpl. by eapply normalizeReferenceType_stable.
Qed.

Lemma minimal_space_forward :
  _referenceTypeMap minimal_space
  = mkDictionary {["Organizes" := Organizes]} Object_prototype.
Proof. vm_compute. reflexivity. Qed.

(** The one browse name of a reference type in the minimal space. *)
Lemma minimal_space_forward_name (name_ : string) :
  is_Some (stored (_referenceTypeMap minimal_space) name_) -> name_ = "Organizes".
Proof.
  intros [found Hfound]. rewrite minimal_space_forward in Hfound.
  unfold stored in Hfound. simpl in Hfound.
  destruct (String.eqb name_ "__proto__"); [discriminate |].
  by apply lookup_singleton_Some in Hfound as [<- _].
Qed.

Lemma minimal_space_names_disjoint : names_disjoint minimal_space.
Proof.
  intros name_ ->%minimal_space_forward_name. vm_compute. reflexivity.
Qed.

Lemma minimal_space_browse_names_plain : browse_names_plain minimal_space.
Proof. intros name_ ->%minimal_space_forward_name. reflexivity. Qed.

Lemma minimal_space_browse_names_own : browse_names_own minimal_space.
Proof.
  split; [| vm_compute; reflexivity].
  intros name_ ->%minimal_space_forward_name. vm_compute. reflexivity.
Qed.

Lemma normalizeReferenceType_idempotent_witness :
  normalizeReferenceType minimal_space
    {| referenceType := "OrganizedBy"; isForward := JSnull |}
  = Return {| referenceType := "Organizes"; isForward := JSbool false |} /\
  normalizeReferenceType minimal_space
    {| referenceType := "Organizes"; isForward := JSbool false |}
  = Return {| referenceType := "Organizes"; isForward := JSbool false |}.
Proof.
  pose proof (normalizeReferenceType_idempotent minimal_space
                {| referenceType := "OrganizedBy"; isForward := JSnull |}
                minimal_space_registered minimal_space_names_disjoint
                minimal_space_browse_names_plain
                minimal_space_browse_names_own) as Hidem.
  assert (normalizeReferenceType minimal_space
            {| referenceType := "OrganizedBy"; isForward := JSnull |}
          = Return {| referenceType := "Organizes"; isForward := JSbool false |})
    as Hfirst by (vm_compute; reflexivity).
  split; [exact Hfirst |].
  rewrite Hfirst in Hidem. exact Hidem.
Defined.

(** The registration invariants of a space whose id index and
    browse-name index of reference types are given entry by entry. *)
Ltac sample_invariants Hindex Hforward :=
  split;
  [ intros key object; rewrite Hindex;
    intros Hentry;
    repeat (apply lookup_insert_Some in Hentry as [[<- <-] | [_ Hentry]]);
    try (by rewrite lookup_empty in Hentry);
    reflexivity
  | intros key object; rewrite Hindex;
    intros Hentry;
    repeat (apply lookup_insert_Some in Hentry as [[_ <-] | [_ Hentry]]);
    try (by rewrite lookup_empty in Hentry);
    (eexists; split; [reflexivity | vm_compute; reflexivity])
  | intros key object; rewrite Hforward;
    unfold stored; simpl;
    destruct (String.eqb key "__proto__"); [discriminate |];
    intros Hentry;
    repeat (apply lookup_insert_Some in Hentry as [[_ <-] | [_ Hentry]]);
    try (by rewrite lookup_empty in Hentry);
    (eexists; split; [reflexivity | vm_compute; reflexivity]) ].

Lemma clashing_space_invariants : registration_invariants clashing_space.
Proof.
  assert (_nodeid_index clashing_space
          = <["i=34" := HasChild]> (<["i=9001" := HasParent]> ∅)) as Hindex
    by (vm_compute; reflexivity).
  assert (_referenceTypeMap clashing_space
          = mkDictionary (<["HasChild" := HasChild]> (<["HasParent" := HasParent]> ∅))
              Object_prototype) as Hforward
    by (vm_compute; reflexivity).
  sample_invariants Hindex Hforward.
Qed.

Lemma numbered_space_invariants : registration_invariants numbered_space.
Proof.
  assert (_nodeid_index numbered_space
          = <["i=9002" := reference_type_node 9002 "i=7" "SeventhOf"]> ∅) as Hindex
    by (vm_compute; reflexivity).
  assert (_referenceTypeMap numbered_space
          = mkDictionary (<["i=7" := reference_type_node 9002 "i=7" "SeventhOf"]> ∅)
              Object_prototype) as Hforward
    by (vm_compute; reflexivity).
  sample_invariants Hindex Hforward.
Qed.

Lemma shadowing_space_invariants : registration_invariants shadowing_space.
Proof.
  assert (_nodeid_index shadowing_space
          = <["i=9003" := reference_type_node 9003 "constructor" "BuiltBy"]> ∅)
    as Hindex by (vm_compute; reflexivity).
  assert (_referenceTypeMap shadowing_space
          = mkDictionary
              (<["constructor" := reference_type_node 9003 "constructor" "BuiltBy"]> ∅)
              Object_prototype) as Hforward
    by (vm_compute; reflexivity).
  sample_invariants Hindex Hforward.
Qed.

(** C6, the claim as stated fails, in three address spaces that are
    built by registration and meet the listed invariants. In the
    clashing space [ChildOf] normalises to [HasChild], and normalising
    that fails an assertion, [HasChild] being a browse name and an
    inverse name. In the numbered space [SeventhOf] normalises to
    [i=7], which is then read as the id of a node that is not there.
    In the shadowing space [BuiltBy] normalises to [constructor], and
    normalising that fails an assertion, the inverse-name index
    yielding the member [constructor] that every object inherits. *)
Lemma normalizeReferenceType_not_idempotent :
  (registered clashing_space /\
   registration_invariants clashing_space /\
   normalizeReferenceType clashing_space
     {| referenceType := "ChildOf"; isForward := JSbool true |}
   = Return {| referenceType := "HasChild"; isForward := JSbool false |} /\
   normalizeReferenceType clashing_space
     {| referenceType := "HasChild"; isForward := JSbool false |}
   = Throw AssertionError) /\
  (registered numbered_space /\
   registration_invariants numbered_space /\
   normalizeReferenceType numbered_space
     {| referenceType := "SeventhOf"; isForward := JSbool true |}
   = Return {| referenceType := "i=7"; isForward := JSbool false |} /\
   normalizeReferenceType numbered_space
     {| referenceType := "i=7"; isForward := JSbool false |}
   = Throw AssertionError) /\
  (registered shadowing_space /\
   registration_invariants shadowing_space /\
   normalizeReferenceType shadowing_space
     {| referenceType := "BuiltBy"; isForward := JSbool true |}
   = Return {| referenceType := "constructor"; isForward := JSbool false |} /\
   normalizeReferenceType shadowing_space
     {| referenceType := "constructor"; isForward := JSbool false |}
   = Throw AssertionError).
Proof.
  split; [| split]; (split; [| split; [| split]]).
  - apply registered_register_all. constructor.
  - exact clashing_space_invariants.
  - vm_compute. reflexivity.
  - vm_compute. reflexivity.
  - apply registered_register_all. constructor.
  - exact numbered_space_invariants.
  - vm_compute. reflexivity.
  - vm_compute. reflexivity.
  - apply registered_register_all. constructor.
  - exact shadowing_space_invariants.
  - vm_compute. reflexivity.
  - vm_compute. reflexivity.
Qed.

(** ** The publish engine *)

(** Unfolds the monad of the engine methods. *)
Ltac engine_unfold :=
  cbv [perform registerSubscriptionCallback unregisterSubscriptionCallback
       acknowledge_notification cleanup_acknowledgment_for_subscription
       send_publish_request send_publish_request_deferred _send_publish_request
       terminate _receive_publish_response publish_callback run_immediate
       run_publish_callback publishRequestCountInPipeline repeatM when
       setImmediate session_publish invoke get_engine put_engine assertM
       mbind M_bind mret M_ret Nat.sub];
  simpl.

Ltac engine_cases := engine_unfold; repeat (case_match; simpl in *; simplify_eq).

Lemma terminate_session (rt : Runtime) :
  session (engine (snd (terminate rt))) = None.
Proof. reflexivity. Qed.

(** What [_receive_publish_response] does to the queue of
    acknowledgements, to the session and to the log of invocations. *)
Lemma receive_publish_response_effect (response : PublishResponse) (rt : Runtime) :
  let rt' := snd (_receive_publish_response response rt) in
  let data := default [] (notificationData (notificationMessage response)) in
  subscriptionAcknowledgements (engine rt')
  = (subscriptionAcknowledgements (engine rt) ++
     match data with
     | [] => []
     | _ :: _ => [{| ack_subscriptionId := subscriptionId response;
                     ack_sequenceNumber := sequenceNumber (notificationMessage response) |}]
     end)%list /\
  session (engine rt') = session (engine rt) /\
  invocations rt'
  = (invocations rt ++
     match subscriptionIdFuncMap (engine rt) !! subscriptionId response,
           session (engine rt) with
     | Some callback, Some _ =>
         [{| invoked_callback := callback;
             invoked_notificationData := data;
             invoked_publishTime := publishTime (notificationMessage response) |}]
     | _, _ => []
     end)%list.
Proof.
  destruct rt as [[session_ acks callbacks hint active pending] queued sent waiting log].
  destruct response as [sid [seq time [[| item data] |]]]; engine_unfold;
    destruct (callbacks !! sid), session_; simpl;
    rewrite ?app_nil_r; auto.
Qed.

(** Once the session is cleared, no operation sets it again and none
    invokes a callback. *)
Lemma perform_terminated (op : Op) (rt : Runtime) :
  session (engine rt) = None ->
  session (engine (snd (perform op rt))) = None /\
  invocations (snd (perform op rt)) = invocations rt.
Proof.
  destruct rt as [[session_ acks callbacks hint active pending] queued sent waiting log].
  simpl. intros ->.
  destruct op as [sid hint' callback | sid | sid seq | sid | | | response | | response].
  - engine_cases; auto.
  - engine_cases; auto.
  - engine_cases; auto.
  - engine_cases; auto.
  - engine_cases; auto.
  - engine_cases; auto.
  - pose proof (receive_publish_response_effect response
                  (mkRuntime (mkEngine None acks callbacks hint active pending)
                     queued sent waiting log)) as (_ & Hsession & Hlog).
    simpl in *. rewrite Hsession, Hlog.
    destruct (callbacks !! subscriptionId response); by rewrite app_nil_r.
  - engine_cases; auto.
  - destruct waiting as [| others]; [by engine_unfold |].
    destruct response as [response |].
    + cbv [perform run_publish_callback publish_callback awaiting engine immediates
           published invocations].
      cbv [mbind M_bind get_engine put_engine]. simpl.
      pose proof (receive_publish_response_effect response
                    (mkRuntime (mkEngine None acks callbacks hint active (pending - 1))
                       queued sent others log)) as (_ & Hsession & Hlog).
      destruct (_receive_publish_response response _) as [[[] | e] rt'];
        simpl in *.
      * assert (invocations rt' = log) as Hlog'.
        { rewrite Hlog.
          destruct (callbacks !! subscriptionId response); by rewrite app_nil_r. }
        unfold when, send_publish_request, setImmediate.
        destruct (0 <? activeSubscriptionCount (engine rt')); simpl; auto.
      * split; [exact Hsession |]. etransitivity; [exact Hlog |].
        destruct (callbacks !! subscriptionId response); by rewrite app_nil_r.
    + engine_cases; auto.
Qed.

Lemma run_terminated (ops : list Op) :
  forall rt,
    session (engine rt) = None ->
    session (engine (run ops rt)) = None /\
    invocations (run ops rt) = invocations rt.
Proof.
  induction ops as [| op ops IH]; intros rt Hnone; simpl; [auto |].
  destruct (perform_terminated op rt Hnone) as [Hsession Hlog].
  destruct (IH _ Hsession) as [Hsession' Hlog'].
  split; [exact Hsession' | congruence].
Qed.

(** C8: after [terminate()], whatever operations follow, responses in
    flight and new ones included, the engine invokes no subscription
    callback: the log of invocations stays as it was. *)
Theorem terminate_silences_callbacks (rt : Runtime) (ops : list Op) :
  invocations (run ops (snd (terminate rt))) = invocations rt.
Proof.
  destruct (run_terminated ops (snd (terminate rt)) (terminate_session rt))
    as [_ ->].
  reflexivity.
Qed.

(** C9: [_receive_publish_response] appends the pair of the
    subscription id and the sequence number to the queue of pending
    acknowledgements when the notification data is not empty, and
    leaves the queue as it is for a keep-alive, whose data is empty or
    absent. *)
Theorem receive_acknowledges_data_only (response : PublishResponse) (rt : Runtime) :
  subscriptionAcknowledgements (engine (snd (_receive_publish_response response rt)))
  = (subscriptionAcknowledgements (engine rt) ++
     match default [] (notificationData (notificationMessage response)) with
     | [] => []
     | _ :: _ => [{| ack_subscriptionId := subscriptionId response;
                     ack_sequenceNumber := sequenceNumber (notificationMessage response) |}]
     end)%list.
Proof. apply receive_publish_response_effect. Qed.

(** C10: a response with notification data that arrives after
    [terminate()], or for a subscription without a callback, is still
    recorded in the queue of pending acknowledgements; only the call of
    the callback is left out. *)
Theorem receive_acknowledges_without_dispatch (response : PublishResponse)
    (rt : Runtime) :
  default [] (notificationData (notificationMessage response)) <> [] ->
  session (engine rt) = None \/
  subscriptionIdFuncMap (engine rt) !! subscriptionId response = None ->
  let rt' := snd (_receive_publish_response response rt) in
  subscriptionAcknowledgements (engine rt')
  = (subscriptionAcknowledgements (engine rt) ++
     [{| ack_subscriptionId := subscriptionId response;
         ack_sequenceNumber := sequenceNumber (notificationMessage response) |}])%list /\
  invocations rt' = invocations rt.
Proof.
  intros Hdata Hsilent.
  destruct (receive_publish_response_effect response rt) as (Hacks & _ & Hlog).
  simpl. rewrite Hacks, Hlog. split.
  - by destruct (default [] (notificationData (notificationMessage response))).
  - destruct Hsilent as [-> | ->]; [| by rewrite app_nil_r].
    destruct (subscriptionIdFuncMap (engine rt) !! subscriptionId response);
      by rewrite app_nil_r.
Qed.

Lemma receive_acknowledges_without_dispatch_witness :
  let terminated :=
    run (Op_registerSubscriptionCallback 1 1000 7%nat
           :: replicate 5 Op_immediate ++ [Op_terminate])%list
        (new_Runtime 0%nat) in
  let rt' := snd (_receive_publish_response (data_change 1 42) terminated) in
  subscriptionAcknowledgements (engine rt')
  = [{| ack_subscriptionId := 1; ack_sequenceNumber := 42 |}] /\
  invocations rt' = [].
Proof.
  apply (receive_acknowledges_without_dispatch (data_change 1 42)
           (run (Op_registerSubscriptionCallback 1 1000 7%nat
                   :: replicate 5 Op_immediate ++ [Op_terminate])%list
                (new_Runtime 0%nat))).
  - discriminate.
  - left. reflexivity.
Defined.

(** While subscriptions are registered and queued sends are run, the
    requests in flight and the sends still queued add up to the
    pipeline depth for each registered subscription. *)
Lemma run_pipeline (ops : list Op) :
  forall (rt : Runtime) (known : list SubscriptionId),
    Forall (fun op => is_register_or_immediate op = true) ops ->
    NoDup (known ++ registered_ids ops) ->
    is_Some (session (engine rt)) ->
    (forall sid, is_Some (subscriptionIdFuncMap (engine rt) !! sid) -> sid ∈ known) ->
    0 <= nbPendingPublishRequests (engine rt) ->
    nbPendingPublishRequests (engine rt) + Z.of_nat (immediates rt)
    = 5 * Z.of_nat (length known) ->
    nbPendingPublishRequests (engine (run ops rt)) + Z.of_nat (immediates (run ops rt))
    = 5 * Z.of_nat (length (known ++ registered_ids ops)).
Proof.
  induction ops as [| op ops IH];
    intros rt known Hops Hdistinct Hsession Hknown Hpositive Hcount.
  - simpl. by rewrite app_nil_r.
  - apply Forall_cons in Hops as [Hop Hops].
    destruct rt as [[session_ acks callbacks hint active pending] queued sent waiting log].
    destruct Hsession as [session' Hsession]. simpl in *. subst session_.
    destruct op as [sid hint' callback | | | | | | | |]; try discriminate Hop.
    + change (registered_ids (Op_registerSubscriptionCallback sid hint' callback :: ops))
        with (sid :: registered_ids ops) in *.
      assert (sid ∉ known) as Hfresh.
      { apply NoDup_app in Hdistinct as (_ & Hdisjoint & _).
        intros Hin. apply (Hdisjoint sid Hin). left. }
      assert (callbacks !! sid = None) as Hfree.
      { destruct (callbacks !! sid) eqn:Hsid; [| reflexivity].
        exfalso. apply Hfresh. apply Hknown. eauto. }
      rewrite cons_middle, app_assoc in Hdistinct |- *.
      unfold run. simpl. engine_unfold. rewrite Hfree. simpl.
      apply IH; simpl; eauto.
      * intros sid' [callback' Hsid'].
        apply lookup_insert_Some in Hsid' as [[<- _] | [_ Hsid']].
        -- apply elem_of_app. right. left.
        -- apply elem_of_app. left. apply Hknown. eauto.
      * rewrite length_app. simpl. lia.
    + change (registered_ids (Op_immediate :: ops)) with (registered_ids ops) in *.
      unfold run. simpl. engine_unfold.
      destruct queued as [| queued]; simpl.
      * apply IH; simpl; eauto.
      * assert ((0 <? pending + 1) = true) as -> by lia. simpl.
        apply IH; simpl; eauto; lia.
Qed.

(** C7: from a fresh engine, after any run that only registers
    subscriptions, with distinct ids, and lets the event loop run the
    sends they queue, once every queued send has run the number of
    pending publish requests is the pipeline depth, 5, times the number
    of registered subscriptions. *)
Theorem register_pipelines (session_ : Session) (ops : list Op) :
  Forall (fun op => is_register_or_immediate op = true) ops ->
  NoDup (registered_ids ops) ->
  immediates (run ops (new_Runtime session_)) = 0%nat ->
  nbPendingPublishRequests (engine (run ops (new_Runtime session_)))
  = Z.of_nat publishRequestCountInPipeline * Z.of_nat (length (registered_ids ops)).
Proof.
  intros Hops Hdistinct Hdrained.
  pose proof (run_pipeline ops (new_Runtime session_) [] Hops Hdistinct) as Hrun.
  simpl in Hrun. rewrite Hdrained in Hrun.
  change (Z.of_nat publishRequestCountInPipeline) with 5.
  rewrite <- Hrun; eauto; try lia.
  intros sid [callback Hsid]. by rewrite lookup_empty in Hsid.
Qed.

Lemma register_pipelines_witness :
  let ops :=
    [ Op_registerSubscriptionCallback 1 1000 7%nat;
      Op_immediate; Op_immediate;
      Op_registerSubscriptionCallback 2 20000 8%nat;
      Op_immediate; Op_immediate; Op_immediate; Op_immediate;
      Op_registerSubscriptionCallback 3 500 9%nat;
      Op_immediate; Op_immediate; Op_immediate; Op_immediate; Op_immediate;
      Op_immediate; Op_immediate; Op_immediate; Op_immediate ] in
  registered_ids ops = [1; 2; 3] /\
  immediates (run ops (new_Runtime 0%nat)) = 0%nat /\
  nbPendingPublishRequests (engine (run ops (new_Runtime 0%nat))) = 15.
Proof.
  split; [reflexivity |]. split; [reflexivity |].
  apply (register_pipelines 0%nat
           [ Op_registerSubscriptionCallback 1 1000 7%nat;
             Op_immediate; Op_immediate;
             Op_registerSubscriptionCallback 2 20000 8%nat;
             Op_immediate; Op_immediate; Op_immediate; Op_immediate;
             Op_registerSubscriptionCallback 3 500 9%nat;
             Op_immediate; Op_immediate; Op_immediate; Op_immediate; Op_immediate;
             Op_immediate; Op_immediate; Op_immediate; Op_immediate ]).
  - repeat constructor.
  - change (NoDup [1; 2; 3]). apply (bool_decide_unpack _). reflexivity.
  - reflexivity.
Defined.

(** * Further properties *)

(** ** Registration and lookup *)

Lemma register_accepted_indexed (self : AddressSpace) (object : BaseNode) :
  fst (_register self object) = Return tt ->
  _nodeid_index (snd (_register self object)) !! NodeId_toString (nodeId object)
  = Some object.
Proof.
  register_cases self object; try discriminate; intros _;
    by rewrite lookup_insert_eq.
Qed.

(** X1: a node that [_register] accepts is found by [findObject] under
    its node id. *)
Theorem register_then_findObject (self : AddressSpace) (object : BaseNode) :
  fst (_register self object) = Return tt ->
  findObject (snd (_register self object)) (ofNodeId (nodeId object))
  = Return (Some object).
Proof.
  intros Haccepted. rewrite findObject_NodeId.
  by rewrite register_accepted_indexed.
Qed.

Lemma register_then_findObject_witness :
  findObject (snd (_register new_AddressSpace Organizes)) (ofNodeId (makeNodeId 35))
  = Return (Some Organizes).
Proof.
  apply (register_then_findObject new_AddressSpace Organizes). reflexivity.
Defined.

(** X2: a second node with the node id of an accepted one is refused
    with an assertion failure, and the address space stays as it was. *)
Theorem register_same_id_refused (self : AddressSpace) (object other : BaseNode) :
  fst (_register self object) = Return tt ->
  nodeId other = nodeId object ->
  _register (snd (_register self object)) other
  = (Throw AssertionError, snd (_register self object)).
Proof.
  intros Haccepted Hid.
  pose proof (register_accepted_indexed self object Haccepted) as Hfound.
  unfold _register at 1. by rewrite Hid, Hfound.
Qed.

Lemma register_same_id_refused_witness :
  _register (snd (_register new_AddressSpace Organizes))
    (object_node 35 "Intruder" [])
  = (Throw AssertionError, snd (_register new_AddressSpace Organizes)).
Proof.
  apply (register_same_id_refused new_AddressSpace Organizes
           (object_node 35 "Intruder" [])); reflexivity.
Defined.

(** X3: a node of a class without a browse-name index (Method, View)
    is refused with the error of an invalid class, but only after it
    was written to the id index: it is found by id afterwards, and no
    browse-name index has changed. *)
Theorem register_invalid_class_occupies_id (self : AddressSpace) (object : BaseNode) :
  _nodeid_index self !! NodeId_toString (nodeId object) = None ->
  index_of_class self (nodeClass object) = None ->
  let after := snd (_register self object) in
  fst (_register self object) = Throw (Error "Invalid class name specified") /\
  findObject after (ofNodeId (nodeId object)) = Return (Some object) /\
  forall class, index_of_class after class = index_of_class self class.
Proof.
  intros Hfree Hclass. cbv zeta. rewrite findObject_NodeId. unfold _register.
  rewrite Hfree.
  destruct (nodeClass object); try discriminate Hclass; simpl;
    (split; [reflexivity |]); (split; [by rewrite lookup_insert_eq |]);
    by intros [].
Qed.

Lemma register_invalid_class_occupies_id_witness :
  let view := {| nodeId := makeNodeId 77; browseName := "Overview";
                 nodeClass := NodeClass_View; inverseName := None;
                 references := []; browseNodeByTargetName := fun _ => [];
                 truthy_member := sample_members "Overview" None |} in
  let after := snd (_register new_AddressSpace view) in
  fst (_register new_AddressSpace view) = Throw (Error "Invalid class name specified") /\
  findObject after (ofNodeId (makeNodeId 77)) = Return (Some view) /\
  forall class, index_of_class after class = index_of_class new_AddressSpace class.
Proof.
  apply (register_invalid_class_occupies_id new_AddressSpace
           {| nodeId := makeNodeId 77; browseName := "Overview";
              nodeClass := NodeClass_View; inverseName := None;
              references := []; browseNodeByTargetName := fun _ => [];
              truthy_member := sample_members "Overview" None |});
    reflexivity.
Defined.

Lemma register_keeps_node (self : AddressSpace) (object : BaseNode)
    (key : string) (node : BaseNode) :
  _nodeid_index self !! key = Some node ->
  _nodeid_index (snd (_register self object)) !! key = Some node.
Proof.
  intros Hnode. unfold _register.
  destruct (_nodeid_index self !! NodeId_toString (nodeId object)) eqn:Hfree;
    [exact Hnode |].
  assert (NodeId_toString (nodeId object) <> key) as Hne by congruence.
  destruct (nodeClass object); simpl; try (by rewrite lookup_insert_ne);
    destruct (inverseName object) as [[inverse] |]; simpl;
    try destruct (String.eqb inverse ""); simpl; by rewrite lookup_insert_ne.
Qed.

(** X4: whatever is registered afterwards, accepted or refused, a node
    stays in the id index under its key: registration never removes or
    replaces a node. *)
Theorem register_all_keeps_node (nodes : list BaseNode) (self : AddressSpace)
    (id : NodeId) (node : BaseNode) :
  findObject self (ofNodeId id) = Return (Some node) ->
  findObject (register_all nodes self) (ofNodeId id) = Return (Some node).
Proof.
  rewrite !findObject_NodeId. intros [= Hnode]. f_equal.
  revert self Hnode.
  induction nodes as [| object nodes IH]; intros self Hnode; simpl; [exact Hnode |].
  apply IH. by apply register_keeps_node.
Qed.

Lemma register_all_keeps_node_witness :
  findObject (register_all [HasChild; object_node 35 "Intruder" []; HasParent]
                (snd (_register new_AddressSpace Organizes)))
             (ofNodeId (makeNodeId 35))
  = Return (Some Organizes).
Proof.
  apply (register_all_keeps_node [HasChild; object_node 35 "Intruder" []; HasParent]
           (snd (_register new_AddressSpace Organizes)) (makeNodeId 35) Organizes).
  reflexivity.
Defined.

(** X5: in an address space built by registration, the node that
    [findObject] returns for an id carries an id with the same
    canonical string. *)
Theorem registered_findObject_id (self : AddressSpace) :
  registered self ->
  forall (id : NodeId) (node : BaseNode),
    findObject self (ofNodeId id) = Return (Some node) ->
    NodeId_toString (nodeId node) = NodeId_toString id.
Proof.
  intros Hself id node. rewrite findObject_NodeId. intros [= Hnode].
  revert Hnode. generalize (NodeId_toString id) as key.
  induction Hself as [| self alias_name aliased _ IH | self object _ IH];
    intros key; simpl.
  - by rewrite lookup_empty.
  - apply IH.
  - unfold _register.
    destruct (_nodeid_index self !! NodeId_toString (nodeId object)); [apply IH |].
    assert (<[NodeId_toString (nodeId object) := object]> (_nodeid_index self) !! key
            = Some node -> NodeId_toString (nodeId node) = key) as Hinsert.
    { intros [[<- <-] | [_ Hold]]%lookup_insert_Some; [reflexivity | by apply IH]. }
    destruct (nodeClass object); simpl; try exact Hinsert;
      destruct (inverseName object) as [[inverse] |]; simpl;
      try destruct (String.eqb inverse ""); simpl; exact Hinsert.
Qed.

Lemma registered_findObject_id_witness :
  NodeId_toString (nodeId Organizes) = NodeId_toString (makeNodeId 35).
Proof.
  apply (registered_findObject_id minimal_space minimal_space_registered
           (makeNodeId 35) Organizes).
  vm_compute. reflexivity.
Defined.

(** How [_register] changes the browse-name indices when it accepts a
    node: the index of the node's class is written at the node's browse
    name, the others stay. *)
Lemma register_index_of_class (self : AddressSpace) (object : BaseNode)
    (class : NodeClass) :
  fst (_register self object) = Return tt ->
  index_of_class (snd (_register self object)) class
  = if shares_index class (nodeClass object)
    then (fun index => JS_set index (browseName object) object)
           <$> index_of_class self class
    else index_of_class self class.
Proof.
  register_cases self object; try discriminate; intros _;
    destruct class; reflexivity.
Qed.

(** X6: when [_register] accepts a node, every browse-name index that
    does not hold the node's class is unchanged, and in the index of
    its class a read of the node's browse name yields the node, while
    no other name has its stored node changed: objects and variables
    share an index, so the later of two with one browse name replaces
    the earlier there. For a browse name other than [__proto__] every
    other name reads as before. For the browse name [__proto__] the
    node becomes the prototype of the index, and a name with no node
    stored under it reads the member of that name of the node. *)
Theorem register_updates_one_index (self : AddressSpace) (object : BaseNode)
    (class : NodeClass) (index : Dictionary BaseNode) :
  fst (_register self object) = Return tt ->
  index_of_class self class = Some index ->
  exists index',
    index_of_class (snd (_register self object)) class = Some index' /\
    if shares_index class (nodeClass object) then
      forall realm_,
        JS_get realm_ index' (browseName object) = Value object /\
        forall name_,
          name_ <> browseName object ->
          stored index' name_ = stored index name_ /\
          (browseName object <> "__proto__" ->
           JS_get realm_ index' name_ = JS_get realm_ index name_) /\
          (browseName object = "__proto__" ->
           stored index name_ = None ->
           JS_get realm_ index' name_ = Via object name_)
    else index' = index.
Proof.
  intros Haccepted Hindex.
  rewrite (register_index_of_class self object class Haccepted), Hindex.
  destruct (shares_index class (nodeClass object)); simpl;
    (eexists; split; [reflexivity |]); [| reflexivity].
  intros realm_. split; [apply JS_get_JS_set_eq |].
  intros name_ Hne. split; [| split].
  - rewrite stored_JS_set. by rewrite decide_False by congruence.
  - intros Hproto. apply JS_get_JS_set_ne; congruence.
  - intros Hproto Hnone. rewrite Hproto.
    apply JS_get_JS_set_proto; congruence.
Qed.

Lemma register_updates_one_index_witness :
  let variable := {| nodeId := makeNodeId 2254; browseName := "Server";
                     nodeClass := NodeClass_Variable; inverseName := None;
                     references := []; browseNodeByTargetName := fun _ => [];
                     truthy_member := sample_members "Server" None |} in
  exists index',
    index_of_class (snd (_register minimal_space variable)) NodeClass_Object
    = Some index' /\
    JS_get [] index' "Server" = Value variable /\
    JS_get [] index' "Objects" = JS_get [] (_objectMap minimal_space) "Objects".
Proof.
  intros variable.
  destruct (register_updates_one_index minimal_space variable NodeClass_Object
              (_objectMap minimal_space))
    as (index' & Hindex' & Hreads);
    [vm_compute; reflexivity | reflexivity |].
  exists index'. split; [exact Hindex' |].
  change (shares_index NodeClass_Object (nodeClass variable)) with true in Hreads.
  destruct (Hreads []) as [Hobject Hothers].
  split; [exact Hobject |].
  apply (Hothers "Objects"); discriminate.
Defined.

(** An entry of a browse-name index is a node of a class of that index,
    filed under its browse name, and registered under its id. *)
Lemma registered_index_entry (self : AddressSpace) :
  registered self ->
  forall (class : NodeClass) (index : Dictionary BaseNode) (name_ : string)
         (node : BaseNode),
    index_of_class self class = Some index ->
    stored index name_ = Some node ->
    shares_index class (nodeClass node) = true /\
    browseName node = name_ /\
    _nodeid_index self !! NodeId_toString (nodeId node) = Some node.
Proof.
  induction 1 as [realm_ | self' alias_name aliased _ IH | self' object Hself' IH].
  - intros [] index name_ node [= <-]; by rewrite stored_empty_object.
  - exact IH.
  - intros class index name_ node Hindex Hnode.
    destruct (fst (_register self' object)) as [[] | e] eqn:Hresult.
    + rewrite (register_index_of_class self' object class Hresult) in Hindex.
      assert (_nodeid_index (snd (_register self' object))
                !! NodeId_toString (nodeId object) = Some object) as Hobject.
      { by apply register_accepted_indexed. }
      destruct (shares_index class (nodeClass object)) eqn:Hshares.
      * destruct (index_of_class self' class) as [old |] eqn:Hold; [| discriminate].
        injection Hindex as <-.
        apply stored_JS_set_Some in Hnode as [[<- <-] | [_ Hnode]].
        -- auto.
        -- destruct (IH class old name_ node Hold Hnode) as (? & ? & ?).
           split; [| split]; auto. by apply register_keeps_node.
      * destruct (IH class index name_ node Hindex Hnode) as (? & ? & ?).
        split; [| split]; auto. by apply register_keeps_node.
    + assert (index_of_class (snd (_register self' object)) class
              = index_of_class self' class) as Hsame.
      { revert Hresult. register_cases self' object; try discriminate;
          intros _; by destruct class. }
      rewrite Hsame in Hindex.
      destruct (IH class index name_ node Hindex Hnode) as (? & ? & ?).
      split; [| split]; auto. by apply register_keeps_node.
Qed.

(** X7: in an address space built by registration, a node that a
    lookup by browse name yields ([findObjectByBrowseName],
    [findObjectType], [findVariableType], [findDataType]) is of a class
    of that index, has that browse name, and is found by [findObject]
    under its id. A lookup need not yield a node: for a name without a
    node in the index it yields what every object inherits under that
    name, if anything. *)
Theorem registered_found_by_name (self : AddressSpace) (name_ : string)
    (node : BaseNode) :
  registered self ->
  (findObjectByBrowseName self name_ = Value node ->
   (nodeClass node = NodeClass_Object \/ nodeClass node = NodeClass_Variable) /\
   browseName node = name_ /\
   findObject self (ofNodeId (nodeId node)) = Return (Some node)) /\
  (findObjectType self name_ = Value node ->
   nodeClass node = NodeClass_ObjectType /\
   browseName node = name_ /\
   findObject self (ofNodeId (nodeId node)) = Return (Some node)) /\
  (findVariableType self name_ = Value node ->
   nodeClass node = NodeClass_VariableType /\
   browseName node = name_ /\
   findObject self (ofNodeId (nodeId node)) = Return (Some node)) /\
  (findDataType self name_ = Value node ->
   nodeClass node = NodeClass_DataType /\
   browseName node = name_ /\
   findObject self (ofNodeId (nodeId node)) = Return (Some node)) /\
  (stored (_objectMap self) name_ = None ->
   stored (_objectMap self) "__proto__" = None ->
   findObjectByBrowseName self name_
   = if inherited_member (realm self) name_ then Inherited name_ else Undefined).
Proof.
  intros Hself.
  pose proof (registered_index_entry self Hself) as Hentry.
  rewrite findObject_NodeId.
  split; [| split; [| split; [| split]]].
  - intros Hfound%JS_get_Value.
    destruct (Hentry NodeClass_Object _ _ _ eq_refl Hfound) as (Hclass & ? & ->).
    split; [| auto]. destruct (nodeClass node); try discriminate; auto.
  - intros Hfound%JS_get_Value.
    destruct (Hentry NodeClass_ObjectType _ _ _ eq_refl Hfound) as (Hclass & ? & ->).
    split; [| auto]. by destruct (nodeClass node).
  - intros Hfound%JS_get_Value.
    destruct (Hentry NodeClass_VariableType _ _ _ eq_refl Hfound) as (Hclass & ? & ->).
    split; [| auto]. by destruct (nodeClass node).
  - intros Hfound%JS_get_Value.
    destruct (Hentry NodeClass_DataType _ _ _ eq_refl Hfound) as (Hclass & ? & ->).
    split; [| auto]. by destruct (nodeClass node).
  - intros Hnone Hproto. by apply JS_get_missing.
Qed.

Lemma registered_found_by_name_witness :
  findObjectByBrowseName minimal_space "Objects"
  = Value (object_node 85 "Objects" [("Server", makeNodeId 2253)]) /\
  findObject minimal_space (ofNodeId (makeNodeId 85))
  = Return (Some (object_node 85 "Objects" [("Server", makeNodeId 2253)])) /\
  findObjectByBrowseName minimal_space "constructor" = Inherited "constructor".
Proof.
  assert (findObjectByBrowseName minimal_space "Objects"
          = Value (object_node 85 "Objects" [("Server", makeNodeId 2253)])) as Hfound
    by (vm_compute; reflexivity).
  split; [exact Hfound |]. split.
  - exact (proj2 (proj2 (proj1 (registered_found_by_name minimal_space "Objects" _
                                  minimal_space_registered) Hfound))).
  - exact (proj2 (proj2 (proj2 (proj2
             (registered_found_by_name minimal_space "constructor" Organizes
                minimal_space_registered))))
             ltac:(vm_compute; reflexivity) ltac:(vm_compute; reflexivity)).
Defined.

(** ** Aliases *)

Lemma JS_own_JS_set {V : Type} (dictionary : Dictionary V) (key key' : string)
    (value : V) :
  JS_own (JS_set dictionary key value) key'
  = if String.eqb key "__proto__" then JS_own dictionary key'
    else if decide (key = key') then Some value
    else JS_own dictionary key'.
Proof.
  unfold JS_own, JS_set.
  destruct (String.eqb_spec key "__proto__") as [-> | Hkey]; simpl; [reflexivity |].
  destruct (String.eqb_spec key' "__proto__") as [-> | Hkey'].
  - by rewrite decide_False.
  - case_decide as Heq; [subst; apply lookup_insert_eq | by apply lookup_insert_ne].
Qed.

(** X8: in an address space without an alias named [hasOwnProperty], a
    string added as an alias finds what its node id finds, also when
    the string reads as another node id, and every other argument
    finds what it found before; but the alias [__proto__] is not
    recorded, every argument finding what it found before, and after
    the alias [hasOwnProperty] every lookup by a string raises a
    TypeError, lookups by a NodeId being as before. *)
Theorem add_alias_findObject (self : AddressSpace) (alias_name : string)
    (aliased : NodeId) (nodeid : NodeIdOrString) :
  JS_own (_aliases self) "hasOwnProperty" = None ->
  findObject (add_alias self alias_name aliased) nodeid
  = if decide (alias_name = "hasOwnProperty") then
      match nodeid with
      | ofString _ => Throw TypeError
      | ofNodeId _ => findObject self nodeid
      end
    else if decide (alias_name <> "__proto__" /\ nodeid = ofString alias_name)
    then findObject self (ofNodeId aliased)
    else findObject self nodeid.
Proof.
  intros Hmethod.
  destruct nodeid as [id | str].
  { repeat case_decide; try reflexivity. by destruct H0 as [_ [=]]. }
  unfold findObject, AddressSpace_resolveNodeId, add_alias, JS_hasOwnProperty.
  cbn [_aliases _nodeid_index].
  rewrite !JS_own_JS_set, Hmethod.
  destruct (decide (alias_name = "hasOwnProperty")) as [-> | Hne]; [reflexivity |].
  destruct (String.eqb_spec alias_name "__proto__") as [-> | Hproto].
  { rewrite decide_False by (by intros [? _]). reflexivity. }
  destruct (decide (alias_name = str)) as [-> | Hother].
  - rewrite decide_True by done. reflexivity.
  - rewrite decide_False by (intros [_ [=]]; congruence). reflexivity.
Qed.

Lemma add_alias_findObject_witness :
  findObject (add_alias minimal_space "Everything" (makeNodeId 84)) (ofString "Everything")
  = Return (Some (object_node 84 "Root" [("Objects", makeNodeId 85)])) /\
  findObject (add_alias minimal_space "hasOwnProperty" (makeNodeId 84)) (ofString "i=84")
  = Throw TypeError /\
  findObject (add_alias minimal_space "__proto__" (makeNodeId 84)) (ofString "i=85")
  = findObject minimal_space (ofString "i=85").
Proof.
  split; [| split].
  - rewrite (add_alias_findObject minimal_space "Everything" (makeNodeId 84)
               (ofString "Everything"));
      [vm_compute; reflexivity | vm_compute; reflexivity].
  - rewrite (add_alias_findObject minimal_space "hasOwnProperty" (makeNodeId 84)
               (ofString "i=84"));
      [vm_compute; reflexivity | vm_compute; reflexivity].
  - rewrite (add_alias_findObject minimal_space "__proto__" (makeNodeId 84)
               (ofString "i=85"));
      [vm_compute; reflexivity | vm_compute; reflexivity].
Defined.

(** ** Reference types, forward and inverse *)

(** An entry of the inverse-name index is a reference type filed under
    the text of its inverse name. *)
Lemma registered_inverse_details (self : AddressSpace) :
  registered self ->
  forall name_ object,
    stored (_referenceTypeMapInv self) name_ = Some object ->
    nodeClass object = NodeClass_ReferenceType /\
    inverseName object = Some {| text := name_ |}.
Proof.
  induction 1 as [realm_ | self alias_name id _ IH | self object _ IH];
    intros name_ found; simpl.
  - by rewrite stored_empty_object.
  - apply IH.
  - register_cases self object; try apply IH.
    intros [[<- <-] | [_ Hold]]%stored_JS_set_Some; [done | by apply IH].
Qed.

(** A name with an entry in the inverse-name index yields that
    entry. *)
Lemma findReferenceTypeFromInverseName_stored (self : AddressSpace)
    (inverseName_ : string) (found : BaseNode) :
  registered self ->
  stored (_referenceTypeMapInv self) inverseName_ = Some found ->
  findReferenceTypeFromInverseName self inverseName_ = Return (Some found).
Proof.
  intros Hself Hfound. unfold findReferenceTypeFromInverseName.
  rewrite (proj2 (JS_get_Value _ _ _ _) Hfound).
  destruct (registered_inverse_details self Hself _ _ Hfound) as [Hclass Hinverse].
  unfold is_ReferenceType. rewrite bool_decide_eq_true_2 by exact Hclass.
  rewrite Hinverse. simpl. by rewrite String.eqb_refl.
Qed.

Lemma findReferenceTypeFromInverseName_total (self : AddressSpace)
    (inverseName_ : string) :
  registered self ->
  stored (_referenceTypeMapInv self) "__proto__" = None ->
  findReferenceTypeFromInverseName self inverseName_
  = entry_of (realm self) (_referenceTypeMapInv self) inverseName_.
Proof.
  intros Hself Hproto. unfold entry_of.
  destruct (stored (_referenceTypeMapInv self) inverseName_) as [found |] eqn:Hfound.
  - by apply findReferenceTypeFromInverseName_stored.
  - by apply findReferenceTypeFromInverseName_missing.
Qed.

(** X9: in an address space built by registration, without a reference
    type of the inverse name [__proto__],
    [findReferenceTypeFromInverseName] returns the entry of the
    inverse-name index under the name, and an entry is a reference type
    with that inverse name; without an entry it returns absent, except
    for the names that every object inherits ([constructor],
    [toString] and the like), on which it fails its assertion. *)
Theorem findReferenceTypeFromInverseName_registered (self : AddressSpace)
    (inverseName_ : string) :
  registered self ->
  stored (_referenceTypeMapInv self) "__proto__" = None ->
  findReferenceTypeFromInverseName self inverseName_
  = match stored (_referenceTypeMapInv self) inverseName_ with
    | Some found => Return (Some found)
    | None =>
        if inherited_member (realm self) inverseName_ then Throw AssertionError
        else Return None
    end /\
  forall found,
    stored (_referenceTypeMapInv self) inverseName_ = Some found ->
    nodeClass found = NodeClass_ReferenceType /\
    inverseName found = Some {| text := inverseName_ |}.
Proof.
  intros Hself Hproto. split; [| apply registered_inverse_details; exact Hself].
  by apply findReferenceTypeFromInverseName_total.
Qed.

Lemma findReferenceTypeFromInverseName_registered_witness :
  findReferenceTypeFromInverseName minimal_space "OrganizedBy"
  = Return (Some Organizes) /\
  findReferenceTypeFromInverseName minimal_space "Organizes" = Return None /\
  findReferenceTypeFromInverseName minimal_space "toString" = Throw AssertionError.
Proof.
  split; [| split].
  - rewrite (proj1 (findReferenceTypeFromInverseName_registered minimal_space
                      "OrganizedBy" minimal_space_registered
                      ltac:(vm_compute; reflexivity))).
    vm_compute. reflexivity.
  - rewrite (proj1 (findReferenceTypeFromInverseName_registered minimal_space
                      "Organizes" minimal_space_registered
                      ltac:(vm_compute; reflexivity))).
    vm_compute. reflexivity.
  - rewrite (proj1 (findReferenceTypeFromInverseName_registered minimal_space
                      "toString" minimal_space_registered
                      ltac:(vm_compute; reflexivity))).
    vm_compute. reflexivity.
Defined.

(** X10: a reference type that [_register] accepts is found at once
    under both its names: by [findReferenceType] under its browse name,
    when that does not begin with [i=], and by
    [findReferenceTypeFromInverseName] under its inverse name. *)
Theorem register_reference_type_found (self : AddressSpace) (object : BaseNode) :
  fst (_register self object) = Return tt ->
  nodeClass object = NodeClass_ReferenceType ->
  String.eqb (substring0 2 (browseName object)) "i=" = false ->
  let after := snd (_register self object) in
  findReferenceType after (browseName object) = Return (Some object) /\
  exists inverse,
    inverseName object = Some inverse /\
    text inverse <> "" /\
    findReferenceTypeFromInverseName after (text inverse) = Return (Some object).
Proof.
  intros Haccepted Hclass Hplain. cbv zeta.
  unfold findReferenceType, findReferenceTypeFromInverseName. rewrite Hplain.
  revert Haccepted. unfold _register.
  destruct (_nodeid_index self !! NodeId_toString (nodeId object)); [discriminate |].
  rewrite Hclass.
  destruct (inverseName object) as [inverse |] eqn:Hinverse; [| discriminate].
  destruct (String.eqb (text inverse) "") eqn:Hempty; [discriminate |].
  intros _. cbn [snd realm _referenceTypeMap _referenceTypeMapInv].
  rewrite !JS_get_JS_set_eq.
  unfold is_ReferenceType. rewrite bool_decide_eq_true_2 by exact Hclass.
  rewrite String.eqb_refl. simpl.
  split; [reflexivity |].
  exists inverse. split; [reflexivity |]. split.
  - intros Heq. rewrite Heq in Hempty. discriminate.
  - rewrite JS_get_JS_set_eq, bool_decide_eq_true_2 by exact Hclass.
    rewrite Hinverse, String.eqb_refl. reflexivity.
Qed.

Lemma register_reference_type_found_witness :
  let after := snd (_register new_AddressSpace Organizes) in
  findReferenceType after (browseName Organizes) = Return (Some Organizes) /\
  exists inverse,
    inverseName Organizes = Some inverse /\
    text inverse <> "" /\
    findReferenceTypeFromInverseName after (text inverse) = Return (Some Organizes).
Proof.
  apply (register_reference_type_found new_AddressSpace Organizes); reflexivity.
Defined.

Lemma inherited_member_proto (realm_ : list string) :
  inherited_member realm_ "__proto__" = true.
Proof.
  apply bool_decide_eq_true, elem_of_app. left.
  apply (bool_decide_unpack _). reflexivity.
Qed.

(** Where no name of a reference type is inherited by every object,
    both indices of reference types have the prototype of their
    creation. *)
Lemma names_own_proto (self : AddressSpace) :
  names_own self ->
  stored (_referenceTypeMap self) "__proto__" = None /\
  stored (_referenceTypeMapInv self) "__proto__" = None.
Proof.
  intros Hown. split.
  - destruct (stored (_referenceTypeMap self) "__proto__") as [holder |] eqn:Hholder;
      [| reflexivity].
    pose proof (Hown "__proto__" (or_introl (mk_is_Some _ _ Hholder))) as Hinherited.
    rewrite inherited_member_proto in Hinherited. discriminate.
  - destruct (stored (_referenceTypeMapInv self) "__proto__") as [holder |] eqn:Hholder;
      [| reflexivity].
    pose proof (Hown "__proto__" (or_intror (mk_is_Some _ _ Hholder))) as Hinherited.
    rewrite inherited_member_proto in Hinherited. discriminate.
Qed.

Section paired_names.
Variable self : AddressSpace.
Hypothesis Hregistered : registered self.
Hypothesis Hdisjoint : names_disjoint self.
Hypothesis Hown : names_own self.

(** The two lookups of [normalizeReferenceType] and
    [inverseReferenceType], for a name that does not begin with [i=]. *)
Lemma lookups_plain (name_ : string) :
  String.eqb (substring0 2 name_) "i=" = false ->
  findReferenceType self name_ = entry_of (realm self) (_referenceTypeMap self) name_ /\
  findReferenceTypeFromInverseName self name_
  = entry_of (realm self) (_referenceTypeMapInv self) name_.
Proof.
  intros Hplain. destruct (names_own_proto self Hown) as [Hproto Hproto'].
  split.
  - unfold entry_of.
    destruct (stored (_referenceTypeMap self) name_) as [found |] eqn:Hfound.
    + by apply findReferenceType_stored.
    + by apply findReferenceType_missing.
  - by apply findReferenceTypeFromInverseName_total.
Qed.

(** The entry of a name that has one in either index. *)
Lemma entry_of_named (dictionary : Dictionary BaseNode) (name_ : string) :
  is_Some (stored (_referenceTypeMap self) name_) \/
  is_Some (stored (_referenceTypeMapInv self) name_) ->
  entry_of (realm self) dictionary name_ = Return (stored dictionary name_).
Proof.
  intros Hnamed. unfold entry_of. rewrite (Hown name_ Hnamed).
  by destruct (stored dictionary name_).
Qed.

Lemma forward_not_inverse (name_ : string) (object : BaseNode) :
  stored (_referenceTypeMapInv self) name_ = Some object ->
  stored (_referenceTypeMap self) name_ = None.
Proof.
  intros Hinverse.
  destruct (stored (_referenceTypeMap self) name_) as [forward |] eqn:Hforward;
    [| reflexivity].
  rewrite Hdisjoint in Hinverse by (by rewrite Hforward). discriminate.
Qed.

Hypothesis Hpaired : well_paired self.
Hypothesis Hplain : browse_names_plain self.
Hypothesis Hplain' : inverse_names_plain self.

(** What [inverseReferenceType] returns for a name that does not begin
    with [i=]: the inverse name of the forward entry, or the browse
    name of the inverse entry. *)
Lemma inverseReferenceType_Return (name_ other : string) :
  String.eqb (substring0 2 name_) "i=" = false ->
  inverseReferenceType self name_ = Return other ->
  (exists object,
     stored (_referenceTypeMap self) name_ = Some object /\
     stored (_referenceTypeMapInv self) name_ = None /\
     stored (_referenceTypeMap self) other = None /\
     stored (_referenceTypeMapInv self) other = Some object /\
     browseName object = name_ /\
     inverseName object = Some {| text := other |}) \/
  (exists object,
     stored (_referenceTypeMap self) name_ = None /\
     stored (_referenceTypeMapInv self) name_ = Some object /\
     stored (_referenceTypeMap self) other = Some object /\
     stored (_referenceTypeMapInv self) other = None /\
     browseName object = other /\
     inverseName object = Some {| text := name_ |}).
Proof.
  intros Hname. unfold inverseReferenceType.
  destruct (lookups_plain name_ Hname) as [-> ->].
  destruct (stored (_referenceTypeMap self) name_) as [forward |] eqn:Hforward.
  - rewrite !entry_of_named by (left; by rewrite Hforward).
    rewrite Hforward, Hdisjoint by (by rewrite Hforward). simpl.
    destruct (paired_forward self Hpaired _ _ Hforward) as (inverse & Hinverse & Hback).
    rewrite Hinverse. intros [= <-]. left. exists forward.
    destruct (registered_forward_entry self Hregistered _ _ Hforward) as [_ Hbrowse].
    destruct (registered_inverse_details self Hregistered _ _ Hback) as [_ Hdetails].
    split; [reflexivity |]. split; [reflexivity |].
    split; [eapply forward_not_inverse; eauto |]. auto.
  - destruct (stored (_referenceTypeMapInv self) name_) as [backward |] eqn:Hbackward.
    + rewrite !entry_of_named by (right; by rewrite Hbackward).
      rewrite Hforward, Hbackward. simpl.
      intros [= <-]. right. exists backward.
      pose proof (paired_inverse self Hpaired _ _ Hbackward) as Hforward'.
      destruct (registered_inverse_details self Hregistered _ _ Hbackward)
        as [_ Hdetails].
      split; [reflexivity |]. split; [reflexivity |]. split; [exact Hforward' |].
      split; [apply Hdisjoint; by rewrite Hforward' |]. auto.
    + unfold entry_of. rewrite Hforward, Hbackward.
      by destruct (inherited_member (realm self) name_).
Qed.

Lemma inverseReferenceType_back (name_ other : string) :
  String.eqb (substring0 2 name_) "i=" = false ->
  inverseReferenceType self name_ = Return other ->
  inverseReferenceType self other = Return name_.
Proof.
  intros Hname Hother.
  destruct (inverseReferenceType_Return name_ other Hname Hother)
    as [(object & _ & _ & Hforward & Hbackward & Hbrowse & Hinverse)
       | (object & _ & _ & Hforward & Hbackward & Hbrowse & Hinverse)];
    unfold inverseReferenceType.
  - destruct (lookups_plain other) as [-> ->];
      [apply Hplain'; by rewrite Hbackward |].
    rewrite !entry_of_named by (right; by rewrite Hbackward).
    rewrite Hforward, Hbackward. simpl. by rewrite Hbrowse.
  - destruct (lookups_plain other) as [-> ->];
      [apply Hplain; by rewrite Hforward |].
    rewrite !entry_of_named by (left; by rewrite Hforward).
    rewrite Hforward, Hbackward. simpl. by rewrite Hinverse.
Qed.

Lemma normalizeReferenceType_reversed (name_ other : string) (b : bool) :
  String.eqb (substring0 2 name_) "i=" = false ->
  inverseReferenceType self name_ = Return other ->
  normalizeReferenceType self
    {| referenceType := other; isForward := JSbool (negb b) |}
  = normalizeReferenceType self
      {| referenceType := name_; isForward := JSbool b |}.
Proof.
  intros Hname Hother.
  destruct (inverseReferenceType_Return name_ other Hname Hother)
    as [(object & Hforward & Hbackward & Hforward' & Hbackward' & Hbrowse & Hinverse)
       | (object & Hforward & Hbackward & Hforward' & Hbackward' & Hbrowse & Hinverse)];
    unfold normalizeReferenceType; simpl.
  - destruct (lookups_plain other) as [-> ->];
      [apply Hplain'; by rewrite Hbackward' |].
    destruct (lookups_plain name_ Hname) as [-> ->].
    rewrite !(entry_of_named _ other) by (right; by rewrite Hbackward').
    rewrite !(entry_of_named _ name_) by (left; by rewrite Hforward).
    rewrite Hforward, Hbackward, Hforward', Hbackward'. simpl.
    by rewrite Hbrowse, negb_involutive.
  - destruct (lookups_plain other) as [-> ->];
      [apply Hplain; by rewrite Hforward' |].
    destruct (lookups_plain name_ Hname) as [-> ->].
    rewrite !(entry_of_named _ other) by (left; by rewrite Hforward').
    rewrite !(entry_of_named _ name_) by (right; by rewrite Hbackward).
    rewrite Hforward, Hbackward, Hforward', Hbackward'. simpl.
    by rewrite Hbrowse.
Qed.
End paired_names.

Lemma minimal_space_inverse :
  _referenceTypeMapInv minimal_space
  = mkDictionary {["OrganizedBy" := Organizes]} Object_prototype.
Proof. vm_compute. reflexivity. Qed.

(** The one inverse name of a reference type in the minimal space. *)
Lemma minimal_space_inverse_name (name_ : string) :
  is_Some (stored (_referenceTypeMapInv minimal_space) name_) -> name_ = "OrganizedBy".
Proof.
  intros [found Hfound]. rewrite minimal_space_inverse in Hfound.
  unfold stored in Hfound. simpl in Hfound.
  destruct (String.eqb name_ "__proto__"); [discriminate |].
  by apply lookup_singleton_Some in Hfound as [<- _].
Qed.

Lemma minimal_space_well_paired : well_paired minimal_space.
Proof.
  split; intros name_ object Hentry.
  - pose proof (minimal_space_forward_name name_ (mk_is_Some _ _ Hentry)) as ->.
    injection Hentry as <-.
    exists {| text := "OrganizedBy" |}. split; reflexivity.
  - pose proof (minimal_space_inverse_name name_ (mk_is_Some _ _ Hentry)) as ->.
    injection Hentry as <-. reflexivity.
Qed.

Lemma minimal_space_inverse_names_plain : inverse_names_plain minimal_space.
Proof. intros name_ ->%minimal_space_inverse_name. reflexivity. Qed.

Lemma minimal_space_names_own : names_own minimal_space.
Proof.
  intros name_ [->%minimal_space_forward_name | ->%minimal_space_inverse_name];
    vm_compute; reflexivity.
Qed.

(** X11: where no two reference types share a name, no name is both
    forward and inverse, no name begins with [i=], and no name is one
    that every object inherits, taking the inverse twice gives the name
    back: whenever [inverseReferenceType] returns for a name, it
    returns that name for the result. *)
Theorem inverseReferenceType_involutive (self : AddressSpace) (name_ other : string) :
  registered self ->
  names_disjoint self ->
  names_own self ->
  well_paired self ->
  browse_names_plain self ->
  inverse_names_plain self ->
  String.eqb (substring0 2 name_) "i=" = false ->
  inverseReferenceType self name_ = Return other ->
  inverseReferenceType self other = Return name_.
Proof. intros. by eapply inverseReferenceType_back. Qed.

Lemma inverseReferenceType_involutive_witness :
  inverseReferenceType minimal_space "Organizes" = Return "OrganizedBy" /\
  inverseReferenceType minimal_space "OrganizedBy" = Return "Organizes".
Proof.
  assert (inverseReferenceType minimal_space "Organizes" = Return "OrganizedBy")
    as Hfirst by (vm_compute; reflexivity).
  split; [exact Hfirst |].
  apply (inverseReferenceType_involutive minimal_space "Organizes" "OrganizedBy"
           minimal_space_registered minimal_space_names_disjoint
           minimal_space_names_own
           minimal_space_well_paired minimal_space_browse_names_plain
           minimal_space_inverse_names_plain eq_refl Hfirst).
Defined.

(** X12: under the same conditions a reference described from its
    other end normalises to the same parameters: the inverse name with
    the opposite direction and the name with the direction have one
    normal form. *)
Theorem normalizeReferenceType_of_inverse (self : AddressSpace)
    (name_ other : string) (b : bool) :
  registered self ->
  names_disjoint self ->
  names_own self ->
  well_paired self ->
  browse_names_plain self ->
  inverse_names_plain self ->
  String.eqb (substring0 2 name_) "i=" = false ->
  inverseReferenceType self name_ = Return other ->
  normalizeReferenceType self
    {| referenceType := other; isForward := JSbool (negb b) |}
  = normalizeReferenceType self
      {| referenceType := name_; isForward := JSbool b |}.
Proof. intros. by eapply normalizeReferenceType_reversed. Qed.

Lemma normalizeReferenceType_of_inverse_witness :
  normalizeReferenceType minimal_space
    {| referenceType := "OrganizedBy"; isForward := JSbool (negb true) |}
  = normalizeReferenceType minimal_space
      {| referenceType := "Organizes"; isForward := JSbool true |}.
Proof.
  apply (normalizeReferenceType_of_inverse minimal_space "Organizes" "OrganizedBy" true
           minimal_space_registered minimal_space_names_disjoint
           minimal_space_names_own
           minimal_space_well_paired minimal_space_browse_names_plain
           minimal_space_inverse_names_plain eq_refl).
  vm_compute. reflexivity.
Defined.

(** The setter of [__proto__] keeps that name out of the own
    properties of the inverse-name index. *)
Lemma registered_inverse_keys (self : AddressSpace) :
  registered self ->
  own_properties (_referenceTypeMapInv self) !! "__proto__" = None.
Proof.
  induction 1 as [realm_ | self alias_name id _ IH | self object _ IH]; simpl.
  - apply lookup_empty.
  - exact IH.
  - register_cases self object; try exact IH.
    unfold JS_set.
    match goal with
    | |- context [String.eqb ?key "__proto__"] =>
        destruct (String.eqb_spec key "__proto__") as [-> | Hne]; simpl
    end; [exact IH |].
    by rewrite lookup_insert_ne.
Qed.

(** X13: [normalizeReferenceType] never returns an inverse name: where
    no name is both forward and inverse, the reference type of the
    parameters it returns is not a key of the inverse-name index, and
    no node is stored there under it. *)
Theorem normalizeReferenceType_names_forward (self : AddressSpace)
    (params normal : ReferenceParams) :
  registered self ->
  names_disjoint self ->
  normalizeReferenceType self params = Return normal ->
  own_properties (_referenceTypeMapInv self) !! referenceType normal = None /\
  stored (_referenceTypeMapInv self) (referenceType normal) = None.
Proof.
  intros Hself Hdisjoint Hnormal.
  assert (stored (_referenceTypeMapInv self) (referenceType normal) = None) as Hnone;
    [| split; [| exact Hnone];
       unfold stored in Hnone;
       destruct (String.eqb_spec (referenceType normal) "__proto__") as [-> | _];
       [by apply registered_inverse_keys | exact Hnone]].
  revert Hnormal. unfold normalizeReferenceType. simpl.
  destruct (findReferenceType self (referenceType params)) as [n1 | e]; [| discriminate].
  destruct (findReferenceTypeFromInverseName self (referenceType params))
    as [n2 | e] eqn:Hn2; [| discriminate].
  apply findReferenceTypeFromInverseName_Return in Hn2. simpl.
  destruct n1 as [forward |], n2 as [backward |];
    simpl; try discriminate; try (by intros [= <-]).
  intros [= <-]. simpl. apply Hdisjoint.
  by eapply registered_inverse_entry.
Qed.

Lemma normalizeReferenceType_names_forward_witness :
  own_properties (_referenceTypeMapInv minimal_space) !! "Organizes" = None /\
  stored (_referenceTypeMapInv minimal_space) "Organizes" = None.
Proof.
  apply (normalizeReferenceType_names_forward minimal_space
           {| referenceType := "OrganizedBy"; isForward := JSbool true |}
           {| referenceType := "Organizes"; isForward := JSbool false |}
           minimal_space_registered minimal_space_names_disjoint).
  vm_compute. reflexivity.
Defined.

(** X14: a name that is in neither index of reference types, and does
    not begin with [i=], in an address space without a reference type
    named [__proto__]: [inverseReferenceType] fails an assertion on it;
    [normalizeReferenceType] passes it through, with a [null] direction
    read as forward, unless it is a name that every object inherits
    ([constructor], [toString] and the like), on which it fails an
    assertion. *)
Theorem unknown_reference_type (self : AddressSpace) (params : ReferenceParams) :
  String.eqb (substring0 2 (referenceType params)) "i=" = false ->
  stored (_referenceTypeMap self) (referenceType params) = None ->
  stored (_referenceTypeMapInv self) (referenceType params) = None ->
  stored (_referenceTypeMap self) "__proto__" = None ->
  stored (_referenceTypeMapInv self) "__proto__" = None ->
  normalizeReferenceType self params
  = (if inherited_member (realm self) (referenceType params)
     then Throw AssertionError
     else Return {| referenceType := referenceType params;
                    isForward := match isForward params with
                                 | JSnull => JSbool true
                                 | other => other
                                 end |}) /\
  inverseReferenceType self (referenceType params) = Throw AssertionError.
Proof.
  intros Hname Hforward Hbackward Hproto Hproto'.
  unfold normalizeReferenceType, inverseReferenceType. simpl.
  rewrite findReferenceType_missing, findReferenceTypeFromInverseName_missing
    by assumption.
  by destruct (inherited_member (realm self) (referenceType params)).
Qed.

Lemma unknown_reference_type_witness :
  (normalizeReferenceType minimal_space
     {| referenceType := "HasGhost"; isForward := JSnull |}
   = Return {| referenceType := "HasGhost"; isForward := JSbool true |} /\
   inverseReferenceType minimal_space "HasGhost" = Throw AssertionError) /\
  (normalizeReferenceType minimal_space
     {| referenceType := "toString"; isForward := JSnull |}
   = Throw AssertionError /\
   inverseReferenceType minimal_space "toString" = Throw AssertionError).
Proof.
  split.
  - apply (unknown_reference_type minimal_space
             {| referenceType := "HasGhost"; isForward := JSnull |}); reflexivity.
  - apply (unknown_reference_type minimal_space
             {| referenceType := "toString"; isForward := JSnull |}); reflexivity.
Defined.

(** ** Browse paths, further *)

(** A result with status [Good] has targets, all with the sentinel. *)
Lemma browsePath_Good_targets (self : AddressSpace) (path : BrowsePath)
    (result : BrowsePathResult) :
  browsePath self path = Return result ->
  statusCode result = Good ->
  targets result <> [] /\ Forall is_sentinel (targets result).
Proof.
  unfold browsePath. rewrite findObject_NodeId. simpl.
  destruct (_nodeid_index self !! NodeId_toString (startingNode path)) as [node |];
    [| by intros [= <-]].
  destruct (length (elements (relativePath path)) =? 0)%nat; [by intros [= <-] |].
  destruct (elements (relativePath path) !! _) as [last_el |]; [| discriminate].
  destruct (targetName_missing last_el); [by intros [= <-] |].
  intros Hrun.
  apply bind_Return in Hrun as (res & Hres & Hrun).
  assert (Forall is_sentinel res) as Hsentinel.
  { unfold explore_element in Hres.
    eapply explore_from_sentinel; [| exact Hres]. constructor. }
  destruct res as [| target res]; simpl in Hrun; injection Hrun as <-; simpl.
  - discriminate.
  - auto.
Qed.

(** X15: whenever [browsePath] answers the constructed path with a
    status other than [Good], [simpleBrowsePath] returns nothing. On a
    [Good] answer there is a last target; in a program that has loaded
    the library should, the check of its remaining path index passes
    and [simpleBrowsePath] returns the id of that target; in a program
    that has not, the check raises a TypeError. *)
Theorem simpleBrowsePath_returns (self : AddressSpace) (startingNode_ : NodeIdOrString)
    (pathname : string) (result : BrowsePathResult) :
  browsePath self (constructBrowsePath startingNode_ pathname) = Return result ->
  simpleBrowsePath self startingNode_ pathname
  = (if decide (statusCode result = Good)
     then if bool_decide ("should" ∈ realm self)
          then Return (targetId <$> last (targets result))
          else Throw TypeError
     else Return None) /\
  (statusCode result = Good -> is_Some (last (targets result))).
Proof.
  intros Hresult. unfold simpleBrowsePath. rewrite Hresult. simpl.
  destruct (decide (statusCode result = Good)) as [Hgood | Hbad].
  - destruct (browsePath_Good_targets self _ result Hresult Hgood)
      as [Hsome Hsentinel].
    destruct (last (targets result)) as [target |] eqn:Hlast.
    + assert (is_sentinel target) as Htarget.
      { rewrite Forall_forall in Hsentinel. apply Hsentinel.
        rewrite last_lookup in Hlast. by eapply list_elem_of_lookup_2. }
      unfold is_sentinel in Htarget. unfold should_equal. rewrite Htarget.
      destruct (targets result); [contradiction |]. simpl.
      split; [| eauto].
      by destruct (bool_decide ("should" ∈ realm self)).
    + apply last_None in Hlast. contradiction.
  - split; [reflexivity | contradiction].
Qed.

Lemma simpleBrowsePath_returns_witness :
  simpleBrowsePath minimal_space_under_test (ofString "/") "Objects.Server"
  = Return (Some (makeNodeId 2253)) /\
  simpleBrowsePath minimal_space (ofString "/") "Objects.Server" = Throw TypeError.
Proof.
  split.
  - exact (proj1 (simpleBrowsePath_returns minimal_space_under_test (ofString "/")
                    "Objects.Server"
                    {| statusCode := Good;
                       targets := [{| targetId := makeNodeId 2253;
                                      remainingPathIndex := 0xFFFFFFFF |}] |}
                    ltac:(vm_compute; reflexivity))).
  - exact (proj1 (simpleBrowsePath_returns minimal_space (ofString "/")
                    "Objects.Server"
                    {| statusCode := Good;
                       targets := [{| targetId := makeNodeId 2253;
                                      remainingPathIndex := 0xFFFFFFFF |}] |}
                    ltac:(vm_compute; reflexivity))).
Defined.

(** X16: a path built by [constructBrowsePath] always has an element,
    so [browsePath] never answers it with [Bad_NothingToDo]; the empty
    path string has the one element with the empty name, and is
    answered with [Bad_BrowseNameInvalid] when the root is registered. *)
Theorem constructed_path_has_elements (self : AddressSpace)
    (startingNode_ : NodeIdOrString) (path : string) :
  (forall result,
     browsePath self (constructBrowsePath startingNode_ path) = Return result ->
     statusCode result <> Bad_NothingToDo) /\
  (is_Some (_nodeid_index self !! NodeId_toString rootFolderId) ->
   browsePath self (constructBrowsePath startingNode_ "")
   = Return (BrowsePathResult_of Bad_BrowseNameInvalid)).
Proof.
  split.
  - intros result. unfold browsePath. rewrite findObject_NodeId. simpl.
    destruct (_nodeid_index self !! _) as [node |]; [| by intros [= <-]].
    rewrite length_map.
    pose proof (split_not_nil "." path) as Hsome.
    destruct (split "." path) as [| segment segments]; [contradiction |].
    cbn [length Nat.eqb].
    destruct (_ !! _) as [last_el |]; [| discriminate].
    destruct (targetName_missing last_el); [by intros [= <-] |].
    destruct (explore_element _ _ _ _ _) as [res | e]; [| discriminate].
    simpl. destruct (length res =? 0)%nat; by intros [= <-].
  - intros [node Hroot]. unfold browsePath. rewrite findObject_NodeId. simpl.
    change (NodeId_toString (makeNodeId 84)) with (NodeId_toString rootFolderId).
    by rewrite Hroot.
Qed.

(** X17: in an address space without dangling references, a browse
    path that passes the checks is answered with the targets of the
    depth-first walk: the children matched by the last element, for
    each way of matching the elements before it, in the order the nodes
    hand them out and with duplicates kept; [Bad_NoMatch] when the
    walk reaches nothing. *)
Theorem browsePath_depth_first (self : AddressSpace) (path : BrowsePath)
    (start : BaseNode) (last_el : RelativePathElement) :
  closed self ->
  _nodeid_index self !! NodeId_toString (startingNode path) = Some start ->
  last (elements (relativePath path)) = Some last_el ->
  targetName_missing last_el = false ->
  browsePath self path
  = Return match descend self (elements (relativePath path)) start with
           | [] => BrowsePathResult_of Bad_NoMatch
           | ids => {| statusCode := Good; targets := map sentinel_target ids |}
           end.
Proof.
  intros Hclosed Hstart Hlast Hname.
  rewrite (browsePath_traversal self path last_el); [| by rewrite Hstart | done..].
  rewrite Hstart. unfold explore_element. rewrite drop_0.
  rewrite (explore_from_descend self _ _ Hclosed 0
             (NodeId_toString (startingNode path)) start []); cycle 1.
  - intros Hnil. rewrite Hnil in Hlast. discriminate.
  - reflexivity.
  - exact Hstart.
  - simpl. by destruct (descend self (elements (relativePath path)) start).
Qed.

Lemma children_named_child (children : list (string * NodeId))
    (element : RelativePathElement) (id : NodeId) :
  id ∈ children_named children element -> id ∈ map snd children.
Proof.
  unfold children_named.
  destruct (targetName element) as [[ns [wanted |]] |];
    try (intros Hin; by apply elem_of_nil in Hin).
  intros (child & -> & Hchild)%list_elem_of_fmap.
  apply list_elem_of_fmap. exists child. split; [reflexivity |].
  apply list_elem_of_In, filter_In in Hchild as [Hchild _].
  by apply list_elem_of_In.
Qed.

Lemma minimal_space_closed : closed minimal_space.
Proof.
  assert (_nodeid_index minimal_space
          = <["i=35" := Organizes]>
              (<["i=84" := object_node 84 "Root" [("Objects", makeNodeId 85)]]>
                 (<["i=85" := object_node 85 "Objects" [("Server", makeNodeId 2253)]]>
                    (<["i=2253" := object_node 2253 "Server" []]> ∅)))) as Hindex
    by (vm_compute; reflexivity).
  intros key node element id Hnode Hid. rewrite Hindex in Hnode.
  repeat (apply lookup_insert_Some in Hnode as [[_ <-] | [_ Hnode]]);
    try (by rewrite lookup_empty in Hnode);
    try (by apply elem_of_nil in Hid);
    apply children_named_child in Hid; simpl in Hid;
    repeat (apply elem_of_cons in Hid as [-> | Hid]);
    try (by apply elem_of_nil in Hid);
    vm_compute; eauto.
Qed.

Lemma browsePath_depth_first_witness :
  browsePath minimal_space (constructBrowsePath (ofString "/") "Objects.Server")
  = Return match descend minimal_space
                   (elements (relativePath
                      (constructBrowsePath (ofString "/") "Objects.Server")))
                   (object_node 84 "Root" [("Objects", makeNodeId 85)]) with
           | [] => BrowsePathResult_of Bad_NoMatch
           | ids => {| statusCode := Good; targets := map sentinel_target ids |}
           end.
Proof.
  apply (browsePath_depth_first minimal_space
           (constructBrowsePath (ofString "/") "Objects.Server")
           (object_node 84 "Root" [("Objects", makeNodeId 85)])
           {| referenceTypeId := makeNodeId 0; isInverse := false;
              includeSubtypes := false;
              targetName := Some {| namespaceIndex := Int 0; name := Some "Server" |} |}
           minimal_space_closed).
  - vm_compute. reflexivity.
  - reflexivity.
  - reflexivity.
Defined.

(** ** Path strings *)

Lemma split_without (sep : ascii) (str : string) :
  has_char sep str = false -> split sep str = [str].
Proof.
  induction str as [| c rest IH]; simpl; [reflexivity |].
  intros [Hc Hrest]%orb_false_iff. rewrite Hc, (IH Hrest). reflexivity.
Qed.

Lemma join_split (sep : ascii) (str : string) :
  join (String sep EmptyString) (split sep str) = str.
Proof.
  induction str as [| c rest IH]; simpl; [reflexivity |].
  pose proof (split_not_nil sep rest) as Hsome.
  destruct (Ascii.eqb_spec c sep) as [-> | Hne].
  - destruct (split sep rest) as [| piece pieces]; [contradiction |].
    cbn [join]. unfold String.app at 1. simpl. f_equal. exact IH.
  - destruct (split sep rest) as [| piece [| piece' pieces]]; [contradiction | |].
    + rewrite <- IH. reflexivity.
    + rewrite <- IH. reflexivity.
Qed.

Lemma split_pieces_without (sep c : ascii) (str : string) :
  has_char c str = false ->
  Forall (fun piece => has_char c piece = false) (split sep str).
Proof.
  induction str as [| c' rest IH]; simpl.
  - intros _. by repeat constructor.
  - intros [Hc Hrest]%orb_false_iff. specialize (IH Hrest).
    destruct (Ascii.eqb c' sep).
    + constructor; [reflexivity | exact IH].
    + destruct (split sep rest) as [| piece pieces].
      * repeat constructor. simpl. by rewrite Hc.
      * apply Forall_cons in IH as [Hpiece Hpieces].
        constructor; [simpl; by rewrite Hc, Hpiece | exact Hpieces].
Qed.

(** X18: for a path string without a colon, the target names of the
    elements that [constructBrowsePath] builds are the pieces of the
    string between the dots, all in namespace 0, and joining them with
    dots gives the string back. *)
Theorem constructBrowsePath_names (startingNode_ : NodeIdOrString) (path : string) :
  has_char ":" path = false ->
  let names := split "." path in
  map targetName (elements (relativePath (constructBrowsePath startingNode_ path)))
  = map (fun piece => Some {| namespaceIndex := Int 0; name := Some piece |}) names /\
  join "." names = path.
Proof.
  intros Hcolon. cbv zeta. split; [| apply join_split].
  simpl. rewrite map_map.
  pose proof (split_pieces_without "." ":" path Hcolon) as Hpieces.
  induction Hpieces as [| piece pieces Hpiece _ IH]; simpl; [reflexivity |].
  rewrite IH. by rewrite (split_without ":" piece Hpiece).
Qed.

Lemma constructBrowsePath_names_witness :
  let names := split "." "Objects.Server.ServerStatus" in
  map targetName
      (elements (relativePath
         (constructBrowsePath (ofString "/") "Objects.Server.ServerStatus")))
  = map (fun piece => Some {| namespaceIndex := Int 0; name := Some piece |}) names /\
  join "." names = "Objects.Server.ServerStatus".
Proof.
  apply (constructBrowsePath_names (ofString "/") "Objects.Server.ServerStatus").
  reflexivity.
Defined.

(** ** References and their arrows *)

(** X19: a reference is only constructed with a direction and with a
    reference type that does not read as a node id; in an address space
    built by registration, without a reference type of the browse name
    [__proto__], [findReferenceType] therefore reads the reference type
    of a constructed reference as a browse name: it answers with the
    entry of the browse-name index, with absent when there is none, and
    fails its assertion only on a type that every object inherits
    ([constructor], [toString] and the like), with which a reference
    can be constructed. *)
Theorem new_Reference_referenceType (self : AddressSpace) (options ref : Reference) :
  registered self ->
  stored (_referenceTypeMap self) "__proto__" = None ->
  new_Reference options = Return ref ->
  ref = options /\
  (exists b, ref_isForward ref = JSbool b) /\
  isNodeIdString (ref_referenceType ref) = false /\
  findReferenceType self (ref_referenceType ref)
  = match stored (_referenceTypeMap self) (ref_referenceType ref) with
    | Some found => Return (Some found)
    | None =>
        if inherited_member (realm self) (ref_referenceType ref)
        then Throw AssertionError
        else Return None
    end.
Proof.
  intros Hself Hproto. unfold new_Reference, is_valid_reference.
  destruct (ref_isForward options) as [| | b] eqn:Hflag; simpl; try discriminate.
  destruct (isNodeIdString (ref_referenceType options)) eqn:Hid; simpl;
    [discriminate |].
  intros [= <-]. split; [reflexivity |]. split; [eauto |]. split; [exact Hid |].
  apply isNodeIdString_false in Hid.
  destruct (stored (_referenceTypeMap self) (ref_referenceType options))
    as [found |] eqn:Hfound.
  - by apply findReferenceType_stored.
  - by apply findReferenceType_missing.
Qed.

Lemma new_Reference_referenceType_witness :
  findReferenceType minimal_space "Organizes" = Return (Some Organizes) /\
  new_Reference {| ref_referenceType := "constructor"; ref_nodeId := makeNodeId 85;
                   ref_isForward := JSbool true |}
  = Return {| ref_referenceType := "constructor"; ref_nodeId := makeNodeId 85;
              ref_isForward := JSbool true |} /\
  findReferenceType minimal_space "constructor" = Throw AssertionError.
Proof.
  split; [| split; [reflexivity |]].
  - etransitivity.
    + exact (proj2 (proj2 (proj2
        (new_Reference_referenceType minimal_space
           {| ref_referenceType := "Organizes"; ref_nodeId := makeNodeId 85;
              ref_isForward := JSbool true |}
           {| ref_referenceType := "Organizes"; ref_nodeId := makeNodeId 85;
              ref_isForward := JSbool true |}
           minimal_space_registered
           ltac:(vm_compute; reflexivity) ltac:(reflexivity))))).
    + vm_compute. reflexivity.
  - etransitivity.
    + exact (proj2 (proj2 (proj2
        (new_Reference_referenceType minimal_space
           {| ref_referenceType := "constructor"; ref_nodeId := makeNodeId 85;
              ref_isForward := JSbool true |}
           {| ref_referenceType := "constructor"; ref_nodeId := makeNodeId 85;
              ref_isForward := JSbool true |}
           minimal_space_registered
           ltac:(vm_compute; reflexivity) ltac:(reflexivity))))).
    + vm_compute. reflexivity.
Defined.

Lemma length_app_string (a b : string) :
  String.length (a +:+ b) = (String.length a + String.length b)%nat.
Proof. induction a as [| c a IH]; simpl; [reflexivity | by rewrite IH]. Qed.

Lemma length_dashes_between (n : nat) :
  String.length (dashes_between n) = (n - 1)%nat.
Proof.
  induction n as [| [| n] IH]; simpl in *; [reflexivity | reflexivity |].
  rewrite IH. lia.
Qed.

(** X20: the width of an arrow. With [L] the larger of the asked length
    and the length of the text plus 8, the arrow is [L] characters wide
    when [L] is even, in both directions; when [L] is odd it is one
    character narrower for a text of even length and one wider for a
    text of odd length. *)
Theorem arrow_width (text_ : string) (length_ : nat) (isForward_ : bool) :
  let L := Nat.max length_ (String.length text_ + 8) in
  String.length (_arrow text_ length_ isForward_)
  = if (L mod 2 =? 0)%nat then L
    else if (String.length text_ mod 2 =? 0)%nat then (L - 1)%nat else (L + 1)%nat.
Proof.
  cbv zeta.
  set (t := String.length text_).
  set (L := Nat.max length_ (t + 8)).
  set (nb := ((L - t - 2) / 2)%nat).
  assert (t + 8 <= L)%nat as Hwide by (subst L; lia).
  assert (t mod 2 < 2)%nat as Hmodt by (apply Nat.mod_upper_bound; lia).
  assert ((L - t - 2) mod 2 < 2)%nat as Hmod by (apply Nat.mod_upper_bound; lia).
  assert (L mod 2 < 2)%nat as HmodL by (apply Nat.mod_upper_bound; lia).
  pose proof (Nat.div_mod_eq (L - t - 2) 2) as Hdiv. fold nb in Hdiv.
  pose proof (Nat.div_mod_eq t 2) as Hdivt.
  pose proof (Nat.div_mod_eq L 2) as HdivL.
  assert (String.length (if (t mod 2 =? 1)%nat then "-" else "") = (t mod 2)%nat)
    as Hextra.
  { destruct (Nat.eqb_spec (t mod 2) 1) as [-> | Hodd]; [reflexivity |].
    change (0 = t mod 2)%nat. lia. }
  assert (String.length (_arrow text_ length_ isForward_)
          = (t mod 2 + 2 * nb + t + 2)%nat) as ->.
  { unfold _arrow. fold t. fold L. fold nb.
    destruct isForward_;
      rewrite !length_app_string, ?Hextra, !length_dashes_between; fold t;
      change (String.length " ") with 1%nat;
      change (String.length "> ") with 2%nat;
      change (String.length "<") with 1%nat; lia. }
  destruct (Nat.eqb_spec (L mod 2) 0), (Nat.eqb_spec (t mod 2) 0); lia.
Qed.

Lemma length_substring0 (n : nat) (str : string) :
  String.length (substring0 n str) = Nat.min n (String.length str).
Proof.
  revert str. induction n as [| n IH]; intros [| c rest]; simpl; auto.
Qed.

Lemma substring0_app (n : nat) (a b : string) :
  (n <= String.length a)%nat -> substring0 n (a +:+ b) = substring0 n a.
Proof.
  revert a. induction n as [| n IH]; intros [| c a] Hn; simpl in *; try reflexivity.
  - lia.
  - rewrite IH by lia. reflexivity.
Qed.

Lemma substring0_substring0 (n m : nat) (str : string) :
  substring0 n (substring0 m str) = substring0 (Nat.min n m) str.
Proof.
  revert m str. induction n as [| n IH]; intros [| m] [| c rest]; simpl; try reflexivity.
  by rewrite IH.
Qed.

Lemma substring0_all (n : nat) (str : string) :
  (String.length str <= n)%nat -> substring0 n str = str.
Proof.
  revert str. induction n as [| n IH]; intros [| c rest] Hn; simpl in *;
    try reflexivity; [lia |].
  rewrite IH by lia. reflexivity.
Qed.

(** X21: [_w] pads with blanks or cuts: the result is [width]
    characters wide as long as [width] is at most the length of the
    text plus 41, so always for a width up to 41, and it begins with
    the text, cut at [width]. *)
Theorem w_width (str : string) (width : nat) :
  String.length (_w str width) = Nat.min width (String.length str + 41) /\
  substring0 (String.length str) (_w str width) = substring0 width str.
Proof.
  unfold _w. split.
  - rewrite length_substring0, length_app_string. reflexivity.
  - rewrite substring0_substring0, substring0_app by lia.
    destruct (Nat.le_ge_cases (String.length str) width) as [Hfits | Hcut].
    + rewrite Nat.min_l by lia. by rewrite !substring0_all by lia.
    + by rewrite Nat.min_r by lia.
Qed.

(** ** The publish engine, further *)

Lemma run_invariant (P : Runtime -> Prop) :
  (forall op rt, P rt -> P (snd (perform op rt))) ->
  forall ops rt, P rt -> P (run ops rt).
Proof.
  intros Hstep ops. induction ops as [| op ops IH]; intros rt Hrt; simpl; auto.
Qed.

(** X22: [cleanup_acknowledgment_for_subscription] drops exactly the
    pending acknowledgements of the subscription: none of them is left,
    those of the other subscriptions stay in their order, and nothing
    else of the engine changes. *)
Theorem cleanup_acknowledgment_effect (subscriptionId_ : SubscriptionId) (rt : Runtime) :
  let before := subscriptionAcknowledgements (engine rt) in
  let rt' := snd (cleanup_acknowledgment_for_subscription subscriptionId_ rt) in
  fst (cleanup_acknowledgment_for_subscription subscriptionId_ rt) = Return tt /\
  Forall (fun a => ack_subscriptionId a <> subscriptionId_)
         (subscriptionAcknowledgements (engine rt')) /\
  (forall other,
     other <> subscriptionId_ ->
     List.filter (fun a => ack_subscriptionId a =? other)
                 (subscriptionAcknowledgements (engine rt'))
     = List.filter (fun a => ack_subscriptionId a =? other) before) /\
  rt' = mkRuntime
          (mkEngine (session (engine rt)) (subscriptionAcknowledgements (engine rt'))
             (subscriptionIdFuncMap (engine rt)) (timeoutHint (engine rt))
             (activeSubscriptionCount (engine rt))
             (nbPendingPublishRequests (engine rt)))
          (immediates rt) (published rt) (awaiting rt) (invocations rt).
Proof.
  destruct rt as [[session_ acks callbacks hint active pending] queued sent waiting log].
  cbv zeta. engine_unfold.
  split; [reflexivity |]. split; [| split; [| reflexivity]].
  - apply Forall_forall. intros a Hin.
    apply list_elem_of_In, filter_In in Hin as [_ Hkeep].
    apply negb_true_iff, Z.eqb_neq in Hkeep. exact Hkeep.
  - intros other Hother.
    induction acks as [| a acks IH]; simpl; [reflexivity |].
    destruct (Z.eqb_spec (ack_subscriptionId a) subscriptionId_) as [Heq | Hne]; simpl.
    + rewrite IH.
      destruct (Z.eqb_spec (ack_subscriptionId a) other); [congruence | reflexivity].
    + rewrite IH. reflexivity.
Qed.

Lemma concat_snoc {A : Type} (ls : list (list A)) (l : list A) :
  concat (ls ++ [l]) = (concat ls ++ l)%list.
Proof. rewrite concat_app. simpl. by rewrite app_nil_r. Qed.

(** An operation other than a cleanup only adds to the
    acknowledgements held or sent, when the counter of pending requests
    is not negative. *)
Lemma perform_keeps_acknowledgements (op : Op) (rt : Runtime) :
  is_cleanup op = false ->
  0 <= nbPendingPublishRequests (engine rt) ->
  acknowledgements_so_far rt `prefix_of` acknowledgements_so_far (snd (perform op rt)).
Proof.
  destruct rt as [[session_ acks callbacks hint active pending] queued sent waiting log].
  unfold acknowledgements_so_far. simpl.
  destruct op as [sid hint' callback | sid | sid seq | sid | | | response | | response];
    try discriminate; intros _ Hpending.
  - engine_cases; reflexivity.
  - engine_cases; reflexivity.
  - engine_cases. rewrite app_assoc. by apply prefix_app_r.
  - engine_cases; reflexivity.
  - engine_cases; reflexivity.
  - pose proof (receive_publish_response_effect response
                  (mkRuntime (mkEngine session_ acks callbacks hint active pending)
                     queued sent waiting log)) as (Hacks & _).
    assert (published (snd (_receive_publish_response response
              (mkRuntime (mkEngine session_ acks callbacks hint active pending)
                 queued sent waiting log))) = sent) as Hsent
      by (engine_cases; reflexivity).
    cbn [perform]. rewrite Hacks, Hsent. simpl.
    rewrite app_assoc. by apply prefix_app_r.
  - engine_cases; try reflexivity.
    + rewrite List.map_app. cbn [map]. rewrite concat_snoc, app_nil_r. reflexivity.
    + unfold assert in *. case_match; [discriminate | lia].
  - engine_cases; try reflexivity;
      rewrite ?app_assoc; by apply prefix_app_r.
Qed.

Lemma perform_pipeline_sound (op : Op) (rt : Runtime) :
  pipeline_sound rt -> pipeline_sound (snd (perform op rt)).
Proof.
  destruct rt as [[session_ acks callbacks hint active pending] queued sent waiting log].
  intros [Hhint Hpending Hsent]. simpl in *.
  destruct op as [sid hint' callback | sid | sid seq | sid | | | response | | response];
    engine_cases;
    try match goal with
        | H : assert (0 <? ?x) = Throw _ |- _ =>
            rewrite (proj2 (Z.ltb_lt 0 x)) in H by lia; discriminate H
        end;
    split; simpl; try assumption; try lia;
    try (apply Forall_app; split; [assumption |];
         apply Forall_singleton; simpl; nia).
Qed.

Lemma new_Runtime_sound (session_ : Session) : pipeline_sound (new_Runtime session_).
Proof. split; simpl; [lia | reflexivity | constructor]. Qed.

Lemma run_pipeline_sound (session_ : Session) (ops : list Op) :
  pipeline_sound (run ops (new_Runtime session_)).
Proof.
  apply (run_invariant pipeline_sound perform_pipeline_sound).
  apply new_Runtime_sound.
Qed.

(** X23: acknowledgements are neither lost nor reordered: in a run from
    a fresh engine, over any further operations without a cleanup, the
    acknowledgements sent in requests so far, followed by those still
    queued, only grow at the end; a deferred send moves the queue into
    its request and leaves that sequence as it is. *)
Theorem acknowledgements_only_grow (session_ : Session) (before ops : list Op) :
  Forall (fun op => is_cleanup op = false) ops ->
  let rt := run before (new_Runtime session_) in
  acknowledgements_so_far rt `prefix_of` acknowledgements_so_far (run ops rt) /\
  acknowledgements_so_far (snd (run_immediate rt)) = acknowledgements_so_far rt.
Proof.
  intros Hops. cbv zeta.
  pose proof (run_pipeline_sound session_ before) as Hsound.
  revert Hsound. generalize (run before (new_Runtime session_)) as rt.
  intros rt Hsound. split.
  - revert rt Hsound.
    induction Hops as [| op ops Hop _ IH]; intros rt Hsound; simpl; [reflexivity |].
    etransitivity.
    + apply (perform_keeps_acknowledgements op); [exact Hop |].
      rewrite (sound_pending rt Hsound). lia.
    + apply IH. by apply perform_pipeline_sound.
  - pose proof (sound_pending rt Hsound) as Hpending.
    destruct rt as [[session' acks callbacks hint active pending] queued sent waiting log].
    unfold acknowledgements_so_far. simpl in *. engine_cases; try reflexivity.
    + rewrite List.map_app. cbn [map]. rewrite concat_snoc, app_nil_r. reflexivity.
    + match goal with
      | H : assert (0 <? ?x) = Throw _ |- _ =>
          rewrite (proj2 (Z.ltb_lt 0 x)) in H by lia; discriminate H
      end.
Qed.

Lemma acknowledgements_only_grow_witness :
  let before := [ Op_registerSubscriptionCallback 1 1000 7%nat; Op_immediate;
                  Op_publish_callback (Some (data_change 1 42)) ] in
  let ops := [ Op_acknowledge_notification 1 43; Op_immediate;
               Op_publish_callback (Some (keep_alive 1 44)) ] in
  let rt := run before (new_Runtime 0%nat) in
  acknowledgements_so_far rt `prefix_of` acknowledgements_so_far (run ops rt) /\
  acknowledgements_so_far (snd (run_immediate rt)) = acknowledgements_so_far rt.
Proof.
  apply (acknowledgements_only_grow 0%nat
           [ Op_registerSubscriptionCallback 1 1000 7%nat; Op_immediate;
             Op_publish_callback (Some (data_change 1 42)) ]
           [ Op_acknowledge_notification 1 43; Op_immediate;
             Op_publish_callback (Some (keep_alive 1 44)) ]).
  repeat constructor.
Defined.

(** X24: the timeout hint of the engine never decreases, whatever
    happens to the engine, and registering a subscription raises it to
    the hint of the subscription when that is larger. *)
Theorem timeoutHint_monotone (ops : list Op) (rt : Runtime) :
  timeoutHint (engine rt) <= timeoutHint (engine (run ops rt)) /\
  forall sid hint callback,
    fst (registerSubscriptionCallback sid hint callback rt) = Return tt ->
    timeoutHint (engine (snd (registerSubscriptionCallback sid hint callback rt)))
    = Z.max (timeoutHint (engine rt)) hint.
Proof.
  split.
  - apply (run_invariant (fun rt' => timeoutHint (engine rt) <= timeoutHint (engine rt')));
      [| lia].
    clear ops. intros op [[session_ acks callbacks hint active pending] queued sent waiting log].
    simpl. generalize (timeoutHint (engine rt)) as floor. intros floor Hfloor.
    destruct op; engine_cases; lia.
  - destruct rt as [[session_ acks callbacks hint active pending] queued sent waiting log].
    intros sid hint' callback. engine_cases; try discriminate; reflexivity.
Qed.

(** X25: every request that an engine hands to its session, in any run
    from a fresh engine, carries a timeout hint of at least the default
    10000, so never the 0 that stands for no timeout. *)
Theorem published_timeoutHint_positive (session_ : Session) (ops : list Op) :
  Forall (fun request => 10000 <= requestHeader_timeoutHint request)
         (published (run ops (new_Runtime session_))).
Proof.
  apply sound_published. apply run_pipeline_sound.
Qed.

(** X26: in any run from a fresh engine the counter of pending publish
    requests is the number of requests handed to the session and not
    yet answered; it is never negative. *)
Theorem pending_counts_awaited (session_ : Session) (ops : list Op) :
  nbPendingPublishRequests (engine (run ops (new_Runtime session_)))
  = Z.of_nat (awaiting (run ops (new_Runtime session_))) /\
  0 <= nbPendingPublishRequests (engine (run ops (new_Runtime session_))).
Proof.
  destruct (run_pipeline_sound session_ ops) as [_ Hpending _].
  split; [exact Hpending | lia].
Qed.

Lemma perform_terminated_published (op : Op) (rt : Runtime) :
  session (engine rt) = None ->
  session (engine (snd (perform op rt))) = None /\
  published (snd (perform op rt)) = published rt.
Proof.
  destruct rt as [[session_ acks callbacks hint active pending] queued sent waiting log].
  simpl. intros ->.
  destruct op; engine_cases; auto.
Qed.

(** X27: after [terminate()] no publish request is issued any more:
    whatever operations follow, queued sends and answers in flight
    included, the requests handed to the session stay as they were. *)
Theorem terminate_stops_requests (rt : Runtime) (ops : list Op) :
  published (run ops (snd (terminate rt))) = published rt.
Proof.
  assert (forall ops rt, session (engine rt) = None ->
                         published (run ops rt) = published rt) as Hrun.
  { clear. intros ops. induction ops as [| op ops IH]; intros rt Hnone; simpl;
      [reflexivity |].
    destruct (perform_terminated_published op rt Hnone) as [Hsession Hsent].
    rewrite IH by exact Hsession. exact Hsent. }
  rewrite Hrun by reflexivity. by destruct rt as [[] ? ? ? ?].
Qed.

(** X28: unregistering a subscription that is not registered fails the
    assertion, but only after the count of active subscriptions was
    decreased: the count is then one less, and the callbacks are the
    same. *)
Theorem unregister_unknown_subscription (subscriptionId_ : SubscriptionId) (rt : Runtime) :
  subscriptionIdFuncMap (engine rt) !! subscriptionId_ = None ->
  let rt' := snd (unregisterSubscriptionCallback subscriptionId_ rt) in
  fst (unregisterSubscriptionCallback subscriptionId_ rt) = Throw AssertionError /\
  activeSubscriptionCount (engine rt') = activeSubscriptionCount (engine rt) - 1 /\
  subscriptionIdFuncMap (engine rt') = subscriptionIdFuncMap (engine rt).
Proof.
  destruct rt as [[session_ acks callbacks hint active pending] queued sent waiting log].
  simpl. intros Hunknown. engine_unfold. rewrite Hunknown. simpl. auto.
Qed.

Lemma unregister_unknown_subscription_witness :
  let rt' := snd (unregisterSubscriptionCallback 9 (new_Runtime 0%nat)) in
  fst (unregisterSubscriptionCallback 9 (new_Runtime 0%nat)) = Throw AssertionError /\
  activeSubscriptionCount (engine rt')
  = activeSubscriptionCount (engine (new_Runtime 0%nat)) - 1 /\
  subscriptionIdFuncMap (engine rt') = subscriptionIdFuncMap (engine (new_Runtime 0%nat)).
Proof.
  apply (unregister_unknown_subscription 9 (new_Runtime 0%nat)). reflexivity.
Defined.

Lemma perform_subscription_count (op : Op) (rt : Runtime) :
  fst (perform op rt) = Return tt ->
  activeSubscriptionCount (engine rt) = Z.of_nat (subscriptionCount (engine rt)) ->
  activeSubscriptionCount (engine (snd (perform op rt)))
  = Z.of_nat (subscriptionCount (engine (snd (perform op rt)))).
Proof.
  destruct rt as [[session_ acks callbacks hint active pending] queued sent waiting log].
  unfold subscriptionCount. simpl.
  destruct op as [sid hint' callback | sid | sid seq | sid | | | response | | response].
  - engine_unfold. destruct (callbacks !! sid) eqn:Hsid.
    + rewrite bool_decide_eq_true_2 by eauto. discriminate.
    + rewrite bool_decide_eq_false_2 by (by intros [? ?]). simpl.
      intros _ ->. rewrite map_size_insert_None by exact Hsid. lia.
  - engine_unfold. destruct (callbacks !! sid) eqn:Hsid.
    + rewrite bool_decide_eq_true_2 by eauto. simpl.
      intros _ ->. rewrite map_size_delete_Some by eauto.
      pose proof (map_size_ne_0_lookup_2 callbacks sid (mk_is_Some _ _ Hsid)).
      unfold SubscriptionId in *. lia.
    + rewrite bool_decide_eq_false_2 by (by intros [? ?]). discriminate.
  - engine_cases; auto.
  - engine_cases; auto.
  - engine_cases; auto.
  - engine_cases; auto.
  - engine_cases; auto.
  - engine_cases; auto.
  - engine_cases; auto.
Qed.

(** X29: as long as no operation raises, the count of active
    subscriptions is the number of registered callbacks: in any run
    from a fresh engine in which every operation returns,
    [activeSubscriptionCount] equals [subscriptionCount]. *)
Theorem subscription_count_agrees (session_ : Session) (ops : list Op) :
  all_return ops (new_Runtime session_) = true ->
  activeSubscriptionCount (engine (run ops (new_Runtime session_)))
  = Z.of_nat (subscriptionCount (engine (run ops (new_Runtime session_)))).
Proof.
  assert (forall ops rt,
            all_return ops rt = true ->
            activeSubscriptionCount (engine rt) = Z.of_nat (subscriptionCount (engine rt)) ->
            activeSubscriptionCount (engine (run ops rt))
            = Z.of_nat (subscriptionCount (engine (run ops rt)))) as Hrun.
  { clear. intros ops. induction ops as [| op ops IH]; intros rt Hreturn Hcount;
      simpl in *; [exact Hcount |].
    destruct (perform op rt) as [[[] | e] rt'] eqn:Hperform; [| discriminate].
    apply IH; [exact Hreturn |].
    pose proof (perform_subscription_count op rt) as Hstep.
    rewrite Hperform in Hstep. by apply Hstep. }
  intros Hreturn. by apply Hrun.
Qed.

Lemma subscription_count_agrees_witness :
  let ops := [ Op_registerSubscriptionCallback 1 1000 7%nat; Op_immediate;
               Op_registerSubscriptionCallback 2 1000 8%nat;
               Op_unregisterSubscriptionCallback 1;
               Op_publish_callback (Some (data_change 1 42)) ] in
  activeSubscriptionCount (engine (run ops (new_Runtime 0%nat)))
  = Z.of_nat (subscriptionCount (engine (run ops (new_Runtime 0%nat)))).
Proof.
  apply (subscription_count_agrees 0%nat
           [ Op_registerSubscriptionCallback 1 1000 7%nat; Op_immediate;
             Op_registerSubscriptionCallback 2 1000 8%nat;
             Op_unregisterSubscriptionCallback 1;
             Op_publish_callback (Some (data_change 1 42)) ]).
  vm_compute. reflexivity.
Defined.

(** X30: with the session alive and a subscription active, the answer
    to a publish request, be it a response or an error, queues exactly
    one new send, and running that send brings the counter of pending
    requests back to what it was: the pipeline keeps its depth. Without
    an active subscription the answer queues nothing and the counter
    goes down by one. *)
Theorem publish_callback_refills (response : option PublishResponse) (rt : Runtime) :
  is_Some (session (engine rt)) ->
  (0 < awaiting rt)%nat ->
  0 < nbPendingPublishRequests (engine rt) ->
  let answered := snd (run_publish_callback response rt) in
  nbPendingPublishRequests (engine answered) = nbPendingPublishRequests (engine rt) - 1 /\
  (0 < activeSubscriptionCount (engine rt) ->
   immediates answered = S (immediates rt) /\
   (immediates rt = 0%nat ->
    nbPendingPublishRequests (engine (snd (run_immediate answered)))
    = nbPendingPublishRequests (engine rt))) /\
  (activeSubscriptionCount (engine rt) <= 0 -> immediates answered = immediates rt).
Proof.
  destruct rt as [[session_ acks callbacks hint active pending] queued sent waiting log].
  simpl. intros [session' ->] Hwaiting Hpending.
  destruct waiting as [| others]; [lia |].
  assert (forall rt' : Runtime,
            nbPendingPublishRequests (engine rt') = pending - 1 ->
            is_Some (session (engine rt')) ->
            immediates rt' = queued ->
            activeSubscriptionCount (engine rt') = active ->
            let answered :=
              snd (when (0 <? activeSubscriptionCount (engine rt'))
                        send_publish_request rt') in
            nbPendingPublishRequests (engine answered) = pending - 1 /\
            (0 < active ->
             immediates answered = S queued /\
             (queued = 0%nat ->
              nbPendingPublishRequests (engine (snd (run_immediate answered)))
              = pending)) /\
            (active <= 0 -> immediates answered = queued)) as Hrefill.
  { intros [[session_ acks' callbacks' hint' active' pending'] queued' sent' waiting' log'].
    simpl. intros -> [session'' ->] -> <-. engine_unfold.
    destruct (Z.ltb_spec 0 active'); simpl.
    - split; [reflexivity |]. split; [| lia]. intros _. split; [reflexivity |].
      intros ->. simpl.
      rewrite (proj2 (Z.ltb_lt 0 (pending - 1 + 1))) by lia. simpl. lia.
    - split; [reflexivity |]. split; [lia | reflexivity]. }
  destruct response as [[sid [seq time data]] |].
  - cbv [run_publish_callback publish_callback awaiting engine immediates published
         invocations mbind M_bind get_engine put_engine]. simpl.
    destruct (_receive_publish_response _ _) as [[[] | e] rt'] eqn:Hreceive.
    + apply (Hrefill rt');
        revert Hreceive; destruct data as [[| item data] |]; engine_unfold;
        destruct (callbacks !! sid); simpl; intros [= <-]; simpl; eauto.
    + revert Hreceive. destruct data as [[| item data] |]; engine_unfold;
        destruct (callbacks !! sid); discriminate.
  - cbv [run_publish_callback publish_callback awaiting engine immediates published
         invocations mbind M_bind get_engine put_engine mret M_ret]. simpl.
    exact (Hrefill
             (mkRuntime (mkEngine (Some session') acks callbacks hint active (pending - 1))
                queued sent others log)
             eq_refl (mk_is_Some _ _ eq_refl) eq_refl eq_refl).
Qed.

Lemma publish_callback_refills_witness :
  let rt := run (Op_registerSubscriptionCallback 1 1000 7%nat
                   :: replicate 5 Op_immediate) (new_Runtime 0%nat) in
  let answered := snd (run_publish_callback (Some (keep_alive 1 1)) rt) in
  nbPendingPublishRequests (engine answered) = nbPendingPublishRequests (engine rt) - 1 /\
  (0 < activeSubscriptionCount (engine rt) ->
   immediates answered = S (immediates rt) /\
   (immediates rt = 0%nat ->
    nbPendingPublishRequests (engine (snd (run_immediate answered)))
    = nbPendingPublishRequests (engine rt))) /\
  (activeSubscriptionCount (engine rt) <= 0 -> immediates answered = immediates rt).
Proof.
  apply (publish_callback_refills (Some (keep_alive 1 1))
           (run (Op_registerSubscriptionCallback 1 1000 7%nat
                   :: replicate 5 Op_immediate) (new_Runtime 0%nat))).
  - by eexists.
  - vm_compute. lia.
  - reflexivity.
Defined.
